(** * retro: analytic track hypothesis (hypo_fast.py) and table lookup
      likelihood (tables/pexp_5d.py)

    A shallow embedding of the two numerical kernels of the package.

    - Python floats are IEEE-754 binary64 values, modelled by the kernel's
      primitive floats, so comparisons with NaN, signed zeros and
      infinities behave as they do in the interpreter.  Arrays are taken
      to hold binary64 values too (the element type [FTYPE] and the record
      types of sources and sensors are defined outside the files at hand).
    - Functions that have no primitive counterpart (sin, cos, tan, arccos,
      arctan2, acos, log, pow, mean) and the constants and helpers the
      package defines elsewhere are collected in interfaces and passed
      around explicitly.
    - Exceptions are values: a function that can raise returns a
      [result].  [pexp_5d] is read as the Python function it is written
      as, with numpy's bounds-checked indexing.
    - The definitions come first (the modules [PyFloat], [Binary64], [Py],
      [HypoFast] and [Pexp5d]), the facts and theorems after them. *)

From Stdlib Require Import Floats ZArith Lia Bool.
From stdpp Require Import gmap list.

(** ** Python float semantics *)

Module PyFloat.

Local Open Scope float_scope.

(** [a <= b], [a < b] and [a == b] on floats, as propositions. *)
Definition fle (a b : float) : Prop := (a <=? b) = true.
Definition flt (a b : float) : Prop := (a <? b) = true.
Definition is_num (a : float) : Prop := is_nan a = false.

(** Python's [a >= b] is [b <= a], [a > b] is [b < a]. *)
Definition geb (a b : float) : bool := b <=? a.
Definition gtb (a b : float) : bool := b <? a.

(** Builtin [max(a, b)] and [min(a, b)]: the first argument is kept
    unless a later one is strictly greater (smaller). *)
Definition py_max (a b : float) : float := if a <? b then b else a.
Definition py_min (a b : float) : float := if b <? a then b else a.
Definition py_max3 (a b c : float) : float := py_max (py_max a b) c.
Definition py_min3 (a b c : float) : float := py_min (py_min a b) c.

(** [sorted([a, b])]: the pair is swapped only when [b < a]. *)
Definition sorted2 (a b : float) : float * float :=
  if b <? a then (b, a) else (a, b).

(** [int(x)]: truncation towards zero; NaN and the infinities raise. *)
Definition int_of_float (x : float) : option Z :=
  match Prim2SF x with
  | S754_zero _ => Some 0%Z
  | S754_finite s m e =>
      let v := if (0 <=? e)%Z then (Z.pos m * 2 ^ e)%Z
               else Z.quot (Z.pos m) (2 ^ (- e)) in
      Some (if s then (- v)%Z else v)
  | _ => None
  end.

(** An integer as a float (exact below 2^53). *)
Definition float_of_Z (n : Z) : float :=
  if (n <? 0)%Z then - of_uint63 (Uint63.of_Z (- n))
  else of_uint63 (Uint63.of_Z n).

Definition np_isinf (x : float) : bool := is_infinity x.

(** NaN among the values of the floating-point specification. *)
Definition sf_is_nan (x : spec_float) : bool :=
  match x with S754_nan => true | _ => false end.

End PyFloat.

(** ** Notions used to reason on binary64 division *)

Module Binary64.
Local Open Scope Z_scope.




End Binary64.

(** ** Exceptions *)

Module Py.

Inductive exn : Set :=
  | AssertionError | ZeroDivisionError | UnboundLocalError | AttributeError
  | ValueError | NotImplementedError | IndexError | OverflowError | TypeError.

Inductive result (A : Type) : Type :=
  | Ok (a : A)
  | Raise (e : exn).
Arguments Ok {A} a.
Arguments Raise {A} e.

#[export] Instance result_ret : MRet result := fun _ a => Ok a.
#[export] Instance result_bind : MBind result := fun _ _ f m =>
  match m with Ok a => f a | Raise e => Raise e end.

Definition raises {A} (m : result A) : Prop := exists e, m = Raise e.

Definition of_option {A} (e : exn) (o : option A) : result A :=
  match o with Some a => Ok a | None => Raise e end.

(** [for i in range(len(l))] with the element at hand: a left fold that
    carries the index. *)
Fixpoint foldi_from {A S : Type} (f : nat -> A -> S -> S)
    (i : nat) (l : list A) (s : S) : S :=
  match l with
  | [] => s
  | a :: l' => foldi_from f (Datatypes.S i) l' (f i a s)
  end.
Definition foldi {A S : Type} (f : nat -> A -> S -> S) (l : list A) (s : S) : S :=
  foldi_from f 0 l s.

(** The same loop when the body can raise. *)
Fixpoint foldi_from_r {A S : Type} (f : nat -> A -> S -> result S)
    (i : nat) (l : list A) (s : S) : result S :=
  match l with
  | [] => Ok s
  | a :: l' =>
      match f i a s with
      | Ok s' => foldi_from_r f (Datatypes.S i) l' s'
      | Raise e => Raise e
      end
  end.
Definition foldi_r {A S : Type} (f : nat -> A -> S -> result S)
    (l : list A) (s : S) : result S :=
  foldi_from_r f 0 l s.

(** The bins of an edge array: [(edges[i], edges[i+1])] for
    [i in range(len(edges) - 1)]. *)
Fixpoint bins (edges : list float) : list (float * float) :=
  match edges with
  | a :: (b :: _) as rest => (a, b) :: bins rest
  | _ => []
  end.

End Py.

(** ** hypo_fast.py *)

Module HypoFast.
Import PyFloat Py.
Local Open Scope float_scope.
Set Warnings "-inexact-float".

(** numpy's elementary functions, as the module calls them. *)
Class Numpy := {
  np_sin : float -> float;
  np_cos : float -> float;
  np_tan : float -> float;
  np_arccos : float -> float;
  np_arctan2 : float -> float -> float;
  (** [x ** y] on numpy's floats. *)
  np_power : float -> float -> float;
}.

(** The constants imported from the package's top level (its
    [__init__] is not among the files at hand). *)
Class RetroConsts := {
  SPEED_OF_LIGHT_M_PER_NS : float;
  TRACK_M_PER_GEV : float;
  PI_BY_TWO : float;
  TWO_PI : float;
}.

Definition np_pi : float := 0x1.921fb54442d18p+1.
Definition np_inf : float := infinity.
Definition np_sqrt (x : float) : float := PrimFloat.sqrt x.
Definition np_abs (x : float) : float := abs x.

Record TimeSpaceCoord := mkTimeSpaceCoord {
  tsc_t : float; tsc_x : float; tsc_y : float; tsc_z : float;
}.

Record TrackParams := mkTrackParams {
  p_t : float; p_x : float; p_y : float; p_z : float;
  p_zenith : float; p_azimuth : float; p_energy : float;
}.

Record BinningCoords (A : Type) := mkBinningCoords {
  bc_t : A; bc_r : A; bc_theta : A; bc_phi : A;
}.
Arguments mkBinningCoords {A}.
Arguments bc_t {A}. Arguments bc_r {A}.
Arguments bc_theta {A}. Arguments bc_phi {A}.

(** *** class Track *)

Record Track := mkTrack {
  params : TrackParams;
  track_length : float;
  dt : float;
  sinphi : float; cosphi : float; tanphi : float;
  sintheta : float; costheta : float;
  origin : option TimeSpaceCoord;
  t0 : float; x0 : float; y0 : float; z0 : float;
}.

Definition coord_eqb (a b : TimeSpaceCoord) : bool :=
  (tsc_t a =? tsc_t b) && (tsc_x a =? tsc_x b)
  && (tsc_y a =? tsc_y b) && (tsc_z a =? tsc_z b).

Definition set_origin (self : Track) (coord : TimeSpaceCoord) : Track :=
  if match origin self with Some o => coord_eqb coord o | None => false end
  then self
  else
    {| params := params self; track_length := track_length self;
       dt := dt self;
       sinphi := sinphi self; cosphi := cosphi self; tanphi := tanphi self;
       sintheta := sintheta self; costheta := costheta self;
       origin := Some coord;
       t0 := p_t (params self) - tsc_t coord;
       x0 := p_x (params self) - tsc_x coord;
       y0 := p_y (params self) - tsc_y coord;
       z0 := p_z (params self) - tsc_z coord |}.

Section TrackMethods.
Context `{NP : Numpy} `{RC : RetroConsts}.

Definition Track_init (p : TrackParams) (o : TimeSpaceCoord) : Track :=
  let len := p_energy p * TRACK_M_PER_GEV in
  set_origin
    {| params := p; track_length := len;
       dt := len / SPEED_OF_LIGHT_M_PER_NS;
       sinphi := np_sin (p_azimuth p); cosphi := np_cos (p_azimuth p);
       tanphi := np_tan (p_azimuth p);
       sintheta := np_sin (p_zenith p); costheta := np_cos (p_zenith p);
       origin := None; t0 := 0; x0 := 0; y0 := 0; z0 := 0 |}
    o.

(** [point]: [None] stands for the failed assertion. *)
Definition point (self : Track) (t : float) : option (float * float * float) :=
  if (t0 self <=? t) && (t <=? t0 self + dt self) then
    let dt' := t - t0 self in
    let dr := SPEED_OF_LIGHT_M_PER_NS * dt' in
    let x := x0 self + dr * sintheta self * cosphi self in
    let y := y0 self + dr * sintheta self * sinphi self in
    let z := z0 self + dr * costheta self in
    Some (x, y, z)
  else None.

Definition extent (self : Track) (t_low t_high : float) : option (float * float) :=
  if geb (t0 self + dt self) t_low && geb t_high (t0 self) then
    let t_0 := py_max t_low (t0 self) in
    let t_1 := py_min t_high (t0 self + dt self) in
    Some (t_0, t_1)
  else None.

Definition tb (self : Track) : float :=
  (t0 self - (x0 self * sintheta self * cosphi self
              + y0 self * sintheta self * sinphi self
              + z0 self * costheta self))
  / SPEED_OF_LIGHT_M_PER_NS.

Definition ts (self : Track) : float :=
  if ((x0 self =? y0 self) && (y0 self =? z0 self) && (z0 self =? 0))
     || (p_zenith (params self) =? 0)
     || (p_zenith (params self) =? np_pi)
  then t0 self
  else
    let rho :=
      (- costheta self * (x0 self * x0 self + y0 self * y0 self)
       + sintheta self * z0 self
         * (x0 self * cosphi self + y0 self * sinphi self))
      /
      (sintheta self * costheta self
         * (x0 self * cosphi self + y0 self * sinphi self)
       - z0 self * sintheta self * sintheta self) in
    t0 self + rho / SPEED_OF_LIGHT_M_PER_NS.

Definition rho_of_t (self : Track) (t : float) : float :=
  if (t <? t0 self) || gtb t (t0 self + dt self) then -1
  else (t - t0 self) * SPEED_OF_LIGHT_M_PER_NS.

Definition rho_of_phi (self : Track) (phi : float) : float :=
  let sin := np_sin phi in
  let cos := np_cos phi in
  (sin * x0 self - cos * y0 self)
  / (cos * sinphi self * sintheta self - sin * cosphi self * sintheta self).

Definition get_M (self : Track) (T : float) : float :=
  let S :=
    - x0 self * x0 self * sintheta self * sintheta self
        * sinphi self * sinphi self
    - y0 self * y0 self * cosphi self * cosphi self
        * sintheta self * sintheta self
    + 2 * x0 self * y0 self * sinphi self * sintheta self * sintheta self
        * cosphi self
    + np_power (np_tan T) 2
      * ((x0 self * x0 self + y0 self * y0 self)
           * costheta self * costheta self
         + z0 self * z0 self * sintheta self * sintheta self
         - 2 * z0 self * sintheta self * costheta self
           * (x0 self * cosphi self + y0 self * sinphi self)) in
  if S <? 0 then 0 else np_sqrt S.

Definition rho_of_theta_neg (self : Track) (T : float) : float :=
  let M := get_M self T in
  let d := - sintheta self * sintheta self
           + costheta self * costheta self * np_power (np_tan T) 2 in
  if d =? 0 then np_inf
  else (x0 self * sintheta self * cosphi self
        + y0 self * sinphi self * sintheta self
        - z0 self * costheta self * np_power (np_tan T) 2
        + M) / d.

Definition rho_of_theta_pos (self : Track) (T : float) : float :=
  let M := get_M self T in
  let d := - sintheta self * sintheta self
           + costheta self * costheta self * np_power (np_tan T) 2 in
  if d =? 0 then np_inf
  else (x0 self * sintheta self * cosphi self
        + y0 self * sinphi self * sintheta self
        - z0 self * costheta self * np_power (np_tan T) 2
        - M) / d.

Definition get_A (self : Track) (R : float) : float :=
  let S :=
    R * R
    + x0 self * x0 self
      * (cosphi self * cosphi self * sintheta self * sintheta self - 1)
    + y0 self * y0 self
      * (sinphi self * sinphi self * sintheta self * sintheta self - 1)
    + z0 self * z0 self * (costheta self * costheta self - 1)
    + 2 * x0 self * y0 self * sinphi self * sintheta self * sintheta self
        * cosphi self
    + 2 * x0 self * z0 self * cosphi self * sintheta self * costheta self
    + 2 * y0 self * z0 self * sinphi self * sintheta self * costheta self in
  if S <? 0 then 0 else np_sqrt S.

Definition rho_of_r_pos (self : Track) (R : float) : float :=
  let A := get_A self R in
  A - x0 self * sintheta self * cosphi self
    - y0 self * sinphi self * sintheta self
    - z0 self * costheta self.

Definition rho_of_r_neg (self : Track) (R : float) : float :=
  let A := get_A self R in
  - A - x0 self * sintheta self * cosphi self
      - y0 self * sinphi self * sintheta self
      - z0 self * costheta self.

End TrackMethods.

(** *** The sparse accumulator *)

(** Modelled from the spec: the [Sparse] class lives in a file that is not
    at hand.  It is a mapping keyed by the 4D bin index with a default
    value, in-place addition, and iteration over the populated cells only. *)
Abbreviation Sparse := (gmap (nat * nat * nat * nat) float).

Definition sparse_get (default : float) (z : Sparse)
    (idx : nat * nat * nat * nat) : float :=
  match z !! idx with Some v => v | None => default end.

Definition sparse_add (z : Sparse) (idx : nat * nat * nat * nat)
    (v : float) : Sparse :=
  <[idx := sparse_get 0 z idx + v]> z.

(** The sum of the populated cells. *)
Definition sparse_total (z : Sparse) : float :=
  map_fold (fun _ v acc => acc + v) 0 z.

(** *** inner_loop *)

(** An interval with both ends negative is skipped. *)
Definition skipped (iv : float * float) : bool :=
  (fst iv <? 0) && (snd iv <? 0).

(** The body shared by the four innermost loops. *)
Definition deposit (z : Sparse) (k j m i : nat)
    (r theta phi : float * float) (photons_per_meter : float) : Sparse :=
  let A := py_max3 (fst r) (fst theta) (fst phi) in
  let B := py_min3 (snd r) (snd theta) (snd phi) in
  if A <=? B then
    let length := B - A in
    sparse_add z (k, j, m, i) (length * photons_per_meter)
  else z.

Definition r_loop (k m i : nat) (theta phi : float * float)
    (r_inter : list (float * float)) (photons_per_meter : float)
    (z : Sparse) : Sparse :=
  foldi (fun j r z =>
           if skipped r then z
           else deposit z k j m i r theta phi photons_per_meter)
        r_inter z.

Definition theta_loop (k i : nat) (phi : float * float)
    (theta_inter r_inter_neg r_inter_pos : list (float * float))
    (photons_per_meter : float) (z : Sparse) : Sparse :=
  foldi (fun m theta z =>
           if skipped theta then z
           else
             let z := r_loop k m i theta phi r_inter_neg photons_per_meter z in
             r_loop k m i theta phi r_inter_pos photons_per_meter z)
        theta_inter z.

Definition inner_loop (z : Sparse) (k : nat)
    (phi_inter theta_inter_neg theta_inter_pos r_inter_neg r_inter_pos :
       list (float * float))
    (photons_per_meter : float) : Sparse :=
  foldi (fun i phi z =>
           if skipped phi then z
           else
             let z := theta_loop k i phi theta_inter_neg
                        r_inter_neg r_inter_pos photons_per_meter z in
             theta_loop k i phi theta_inter_pos
               r_inter_neg r_inter_pos photons_per_meter z)
        phi_inter z.

(** *** class Hypo *)

(** Modelled from the spec: [HYPO_PARAMS_T] and [hypo_to_track_params]
    are defined outside the files at hand; a hypothesis is a track
    together with a scalar cascade energy at the track's origin. *)
Record HypoParams := mkHypoParams {
  h_t : float; h_x : float; h_y : float; h_z : float;
  h_track_azimuth : float; h_track_zenith : float;
  h_track_energy : float; h_cascade_energy : float;
}.

Definition hypo_to_track_params (p : HypoParams) : TrackParams :=
  {| p_t := h_t p; p_x := h_x p; p_y := h_y p; p_z := h_z p;
     p_zenith := h_track_zenith p; p_azimuth := h_track_azimuth p;
     p_energy := h_track_energy p |}.

Record Matrices := mkMatrices {
  photon_counts : Sparse;
  photon_corr_theta : Sparse;
  photon_corr_phi : Sparse;
  photon_corr_len : Sparse;
}.

Record Hypo := mkHypo {
  hypo_params : HypoParams;
  track : Track;
  photons_per_meter : float;
  cascade_photons : float;
  track_photons : float;
  tot_photons : float;
  bin_edges : option (BinningCoords (list float));
  bin_centers : option (BinningCoords (list float));
  shape : list nat;
  matrices : option Matrices;
}.

Definition centers (edges : list float) : list float :=
  List.map (fun b => 0.5 * (fst b + snd b)) (bins edges).

Definition set_binning (self : Hypo) (edges : BinningCoords (list float)) : Hypo :=
  let c := {| bc_t := centers (bc_t edges); bc_r := centers (bc_r edges);
              bc_theta := centers (bc_theta edges);
              bc_phi := centers (bc_phi edges) |} in
  {| hypo_params := hypo_params self; track := track self;
     photons_per_meter := photons_per_meter self;
     cascade_photons := cascade_photons self;
     track_photons := track_photons self;
     tot_photons := tot_photons self;
     bin_edges := Some edges;
     bin_centers := Some c;
     shape := [length (bc_t c); length (bc_r c);
               length (bc_theta c); length (bc_phi c)];
     matrices := matrices self |}.

Definition get_bin (val : float) (edges : list float) : option nat :=
  foldi (fun k b found =>
           match found with
           | Some _ => found
           | None => if (fst b <=? val) && (val <? snd b) then Some k else None
           end)
        (bins edges) None.

Section HypoMethods.
Context `{NP : Numpy} `{RC : RetroConsts}.

Definition Hypo_init (p : HypoParams) (cascade_e_scale track_e_scale : float) : Hypo :=
  let trk := Track_init (hypo_to_track_params p) (mkTimeSpaceCoord 0 0 0 0) in
  let ppm := 2451.4544553 * track_e_scale in
  let photons_per_gev_cascade := 12805.3383311 * cascade_e_scale in
  let cascade := h_cascade_energy p * photons_per_gev_cascade in
  let trackp := track_length trk * ppm in
  {| hypo_params := p; track := trk;
     photons_per_meter := ppm;
     cascade_photons := cascade;
     track_photons := trackp;
     tot_photons := cascade + trackp;
     bin_edges := None; bin_centers := None; shape := [];
     matrices := None |}.

Definition cr (x y z : float) : float := np_sqrt (x * x + y * y + z * z).

Definition cphi (x y z : float) : float :=
  let v := np_arctan2 y x in
  if v <? 0 then v + TWO_PI else v.

Definition ctheta (x y z : float) : float :=
  if (x =? y) && (y =? z) && (z =? 0) then 0
  else np_arccos (z / np_sqrt (x * x + y * y + z * z)).

Definition correlate_theta (trk : Track) (edges : list float)
    (t : option (float * float)) (rho_extent : float * float)
    : list (float * float) :=
  List.map (fun b =>
    match t with
    | None => (-1, -1)
    | Some t =>
        if (np_abs (fst t - snd t) <? 1e-7)
           && (fst b <=? fst t) && (fst t <=? snd b) then
          rho_extent
        else if (fst b <=? snd t) && (fst t <=? snd b) && (fst t <? snd t) then
          let val_high := py_min (snd b) (snd t) in
          let val_low := py_max (fst b) (fst t) in
          if fst b <? PI_BY_TWO then
            sorted2 (rho_of_theta_pos trk val_low) (rho_of_theta_pos trk val_high)
          else
            sorted2 (rho_of_theta_neg trk val_low) (rho_of_theta_neg trk val_high)
        else if (fst b <=? fst t) && (snd t <=? snd b) && (snd t <? fst t) then
          let val_high := py_min (snd b) (fst t) in
          let val_low := py_max (fst b) (snd t) in
          if fst b <? PI_BY_TWO then
            sorted2 (rho_of_theta_neg trk val_low) (rho_of_theta_neg trk val_high)
          else
            sorted2 (rho_of_theta_pos trk val_low) (rho_of_theta_pos trk val_high)
        else (-1, -1)
    end) (bins edges).

Definition correlate_phi (trk : Track) (edges : list float)
    (t : float * float) (rho_extent : float * float)
    : list (float * float) :=
  List.map (fun b =>
    if (np_abs (fst t - snd t) <? 1e-14)
       && (fst b <=? fst t) && (fst t <? snd b) then
      rho_extent
    else if (fst t <=? snd t) && (fst b <=? snd t) && (fst t <? snd b) then
      let phi_high := py_min (snd b) (snd t) in
      let phi_low := py_max (fst b) (fst t) in
      sorted2 (rho_of_phi trk phi_low) (rho_of_phi trk phi_high)
    else if snd t <? fst t then
      let bounds :=
        if geb (snd b) 0 && geb (snd t) (fst b) then
          Some (py_max (fst b) 0, py_min (snd b) (snd t))
        else if gtb TWO_PI (fst b) && geb (snd b) (fst t) then
          Some (py_max (fst b) (fst t), py_min (snd b) TWO_PI)
        else if (fst b <=? snd t) && (fst t <=? snd t) then
          Some (py_max (fst b) (fst t), py_min (snd b) (snd t))
        else None in
      match bounds with
      | Some (phi_low, phi_high) =>
          sorted2 (rho_of_phi trk phi_low) (rho_of_phi trk phi_high)
      | None => (-1, -1)
      end
    else (-1, -1)) (bins edges).

Definition correlate_r (trk : Track) (edges : list float)
    (t : float * float) (pos : bool) : list (float * float) :=
  List.map (fun b =>
    if (fst b <=? snd t) && (fst t <=? snd b) then
      let val_high := py_min (snd b) (snd t) in
      let val_low := py_max (fst b) (fst t) in
      if (geb val_low val_high && negb pos) || ((val_low <=? val_high) && pos) then
        sorted2 (rho_of_r_neg trk val_low) (rho_of_r_neg trk val_high)
      else
        sorted2 (rho_of_r_pos trk val_low) (rho_of_r_pos trk val_high)
    else (-1, -1)) (bins edges).

(** [np.average([a, b], weights=[w1, w2])]. *)
Definition np_average2 (a b w1 w2 : float) : result float :=
  let scl := w1 + w2 in
  if scl =? 0 then Raise ZeroDivisionError
  else Ok ((a * w1 + b * w2) / scl).

(** One turn of the loop over the time bins of [compute_matrices]. *)
Definition time_bin_step (trk : Track) (edges : BinningCoords (list float))
    (ppm : float) (tb_ ts_ : float)
    (r_inflection_point theta_inflection_point : option float)
    (k : nat) (time_bin : float * float) (z : Sparse) : result Sparse :=
  match extent trk (fst time_bin) (snd time_bin) with
  | None => Ok z
  | Some t_extent =>
      e0 ← of_option AssertionError (point trk (fst t_extent));
      e1 ← of_option AssertionError (point trk (snd t_extent));
      let '(ex0, ey0, ez0) := e0 in
      let '(ex1, ey1, ez1) := e1 in
      let rho_extent :=
        (rho_of_t trk (fst t_extent), rho_of_t trk (snd t_extent)) in
      (* Radius *)
      let track_r_extent := (cr ex0 ey0 ez0, cr ex1 ey1 ez1) in
      r_ext ←
        (if tb_ <=? fst t_extent then
           Ok (sorted2 (fst track_r_extent) (snd track_r_extent), (-1, -1))
         else if gtb tb_ (snd t_extent) then
           Ok ((-1, -1), sorted2 (fst track_r_extent) (snd track_r_extent))
         else
           rip ← of_option UnboundLocalError r_inflection_point;
           Ok (sorted2 rip (snd track_r_extent),
               sorted2 (fst track_r_extent) rip));
      let '(track_r_extent_neg, track_r_extent_pos) := r_ext in
      (* theta *)
      let track_theta_extent := (ctheta ex0 ey0 ez0, ctheta ex1 ey1 ez1) in
      th_ext ←
        (if ts_ <=? fst t_extent then
           Ok (track_theta_extent, (-1, -1))
         else if geb ts_ (snd t_extent) then
           Ok ((-1, -1), track_theta_extent)
         else
           tip ← of_option UnboundLocalError theta_inflection_point;
           Ok ((fst track_theta_extent, tip), (tip, snd track_theta_extent)));
      let '(track_theta_extent_neg, track_theta_extent_pos) := th_ext in
      (* Phi *)
      let sorted_phi := sorted2 (cphi ex0 ey0 ez0) (cphi ex1 ey1 ez1) in
      let track_phi_extent :=
        if gtb (np_abs (snd sorted_phi - fst sorted_phi)) np_pi
        then (snd sorted_phi, fst sorted_phi) else sorted_phi in
      let theta_inter_neg :=
        correlate_theta trk (bc_theta edges) (Some track_theta_extent_neg) rho_extent in
      let theta_inter_pos :=
        correlate_theta trk (bc_theta edges) (Some track_theta_extent_pos) rho_extent in
      let phi_inter := correlate_phi trk (bc_phi edges) track_phi_extent rho_extent in
      let r_inter_neg := correlate_r trk (bc_r edges) track_r_extent_neg false in
      let r_inter_pos := correlate_r trk (bc_r edges) track_r_extent_pos true in
      Ok (inner_loop z k phi_inter theta_inter_neg theta_inter_pos
            r_inter_neg r_inter_pos ppm)
  end.

(** The loop that fills in the directions of the populated cells. *)
Definition add_angles (self : Hypo) (trk : Track) (phi_centers : list float)
    (counts : Sparse) : result (Sparse * Sparse * Sparse) :=
  foldr (fun (element : (nat * nat * nat * nat) * float) acc =>
           '(c_theta, c_phi, c_len) ← acc;
           let idx := fst element in
           let theta := p_zenith (params trk) in
           phi ← of_option IndexError (phi_centers !! snd idx);
           let delta := np_abs (phi - p_azimuth (params trk)) in
           let delta_phi := if delta <=? np_pi then delta else TWO_PI - delta in
           Ok (<[idx := theta]> c_theta, <[idx := delta_phi]> c_phi,
               <[idx := 1.0]> c_len))
        (Ok (∅, ∅, ∅)) (map_to_list counts).

(** The cascade, added as a point at the track's origin. *)
Definition add_cascade (self : Hypo) (trk : Track)
    (edges : BinningCoords (list float)) (m : Matrices) : result Matrices :=
  let r0 := cr (x0 trk) (y0 trk) (z0 trk) in
  let theta0 := ctheta (x0 trk) (y0 trk) (z0 trk) in
  let phi0 := cphi (x0 trk) (y0 trk) (z0 trk) in
  match get_bin (t0 trk) (bc_t edges), get_bin r0 (bc_r edges),
        get_bin theta0 (bc_theta edges), get_bin phi0 (bc_phi edges) with
  | Some t_bin, Some r_bin, Some theta_bin, Some phi_bin =>
      let idx := (t_bin, r_bin, theta_bin, phi_bin) in
      avg ← np_average2 (sparse_get 0 (photon_corr_len m) idx) 0.5
              (sparse_get 0 (photon_counts m) idx) (cascade_photons self);
      Ok {| photon_counts :=
              sparse_add (photon_counts m) idx (cascade_photons self);
            photon_corr_theta := photon_corr_theta m;
            photon_corr_phi := photon_corr_phi m;
            photon_corr_len := <[idx := avg]> (photon_corr_len m) |}
  | _, _, _, _ => Ok m
  end.

Definition compute_matrices (self : Hypo) (hit_dom_coord : TimeSpaceCoord)
    : result Hypo :=
  let trk := set_origin (track self) hit_dom_coord in
  edges ← of_option AttributeError (bin_edges self);
  cs ← of_option AttributeError (bin_centers self);
  (* Closest point (r inflection point) *)
  let tb_ := tb trk in
  r_inflection_point ←
    (if geb tb_ (t0 trk) && (tb_ <? t0 trk + dt trk) then
       '(xb, yb, zb) ← of_option AssertionError (point trk tb_);
       Ok (Some (cr xb yb zb))
     else Ok None);
  (* theta inflection point *)
  let ts_ := ts trk in
  theta_inflection_point ←
    (if geb ts_ (t0 trk) && (ts_ <? t0 trk + dt trk) then
       '(xs, ys, zs) ← of_option AssertionError (point trk ts_);
       Ok (Some (ctheta xs ys zs))
     else Ok None);
  (* iterate over time bins *)
  counts ← foldi_r (time_bin_step trk edges (photons_per_meter self) tb_ ts_
                      r_inflection_point theta_inflection_point)
             (bins (bc_t edges)) ∅;
  (* add angles *)
  '(c_theta, c_phi, c_len) ← add_angles self trk (bc_phi cs) counts;
  (* add cascade as point *)
  m ← add_cascade self trk edges
        {| photon_counts := counts; photon_corr_theta := c_theta;
           photon_corr_phi := c_phi; photon_corr_len := c_len |};
  Ok {| hypo_params := hypo_params self; track := trk;
        photons_per_meter := photons_per_meter self;
        cascade_photons := cascade_photons self;
        track_photons := track_photons self;
        tot_photons := tot_photons self;
        bin_edges := bin_edges self; bin_centers := bin_centers self;
        shape := shape self;
        matrices := Some m |}.

End HypoMethods.

(** *** Notions used to state the properties *)

(** A point shared by three intervals. *)
Definition common_point (r theta phi : float * float) (x : float) : Prop :=
  fle (fst r) x /\ fle x (snd r)
  /\ fle (fst theta) x /\ fle x (snd theta)
  /\ fle (fst phi) x /\ fle x (snd phi).

(** The rule of the triple intersection for one interval of each axis:
    nothing when one of the intervals has both ends negative or when the
    largest lower end is above the smallest upper end, else the length of
    the overlap times the photons per metre. *)
Definition overlap_count (r theta phi : float * float) (ppm : float)
    : option float :=
  if skipped phi || skipped theta || skipped r then None
  else
    let A := py_max3 (fst r) (fst theta) (fst phi) in
    let B := py_min3 (snd r) (snd theta) (snd phi) in
    if A <=? B then Some ((B - A) * ppm) else None.

(** The same for the intervals number [m] and [j] of two arrays, when
    both exist. *)
Definition pair_count (theta_inter r_inter : list (float * float))
    (m j : nat) (phi : float * float) (ppm : float) : option float :=
  match theta_inter !! m, r_inter !! j with
  | Some theta, Some r => overlap_count r theta phi ppm
  | _, _ => None
  end.

(** [z[idx] += d] seen from the cell: an absent cell counts as zero. *)
Definition cell_add (d : option float) (cell : option float) : option float :=
  match d with
  | Some d => Some (match cell with Some v => v | None => 0 end + d)
  | None => cell
  end.

(** [get_bin]'s test of one bin, and the body of its scan. *)
Definition in_bin (val : float) (b : float * float) : bool :=
  (fst b <=? val) && (val <? snd b).

Definition scan (val : float) :=
  fun (k : nat) (b : float * float) (found : option nat) =>
    match found with
    | Some _ => found
    | None => if (fst b <=? val) && (val <? snd b) then Some k else None
    end.

(** Strictly monotonic edge sequences. *)
Definition strictly_increasing (edges : list float) : Prop :=
  forall i a b, edges !! i = Some a -> edges !! S i = Some b -> flt a b.
Definition strictly_decreasing (edges : list float) : Prop :=
  forall i a b, edges !! i = Some a -> edges !! S i = Some b -> flt b a.
Definition strictly_monotonic (edges : list float) : Prop :=
  strictly_increasing edges \/ strictly_decreasing edges.

(** Ordered intervals and the sentinel of the correlators. *)
Definition ordered (iv : float * float) : Prop := fle (fst iv) (snd iv).
Definition sentinel (iv : float * float) : Prop := skipped iv = true.

(** What a correlator promises of an interval whose ends are numbers. *)
Definition well_formed (iv : float * float) : Prop :=
  is_num (fst iv) -> is_num (snd iv) -> ordered iv \/ sentinel iv.


(** *** Reference values for worked examples *)

(** numpy's functions at the few arguments that tracks along a coordinate
    axis reach (multiples of pi/2, and +-1 for arccos); NaN stands for
    every argument the examples never evaluate. *)
Definition is_pos_zero (x : float) : bool := (x =? 0) && negb (get_sign x).

Definition np_on_axes : Numpy := {|
  np_sin x := if is_pos_zero x then 0
              else if x =? np_pi / 2 then 1
              else if x =? np_pi then 0x1.1a62633145c07p-53 else nan;
  np_cos x := if x =? 0 then 1
              else if x =? np_pi / 2 then 0x1.1a62633145c07p-54
              else if x =? np_pi then -1 else nan;
  np_tan x := if is_pos_zero x then 0 else nan;
  np_arccos x := if x =? 1 then 0 else if x =? -1 then np_pi else nan;
  np_arctan2 y x := if is_pos_zero y && is_pos_zero x then 0 else nan;
  np_power x y := if (x =? 0) && (y =? 2) then 0 else nan;
|}.

(** The values of the package's constants: the speed of light in vacuum in
    m/ns, the track length per GeV (15 m per 3.3 GeV), pi/2 and 2 pi. *)
Definition retro_consts : RetroConsts := {|
  SPEED_OF_LIGHT_M_PER_NS := 0x1.32fccb4aca314p-2;
  TRACK_M_PER_GEV := 0x1.22e8ba2e8ba2fp+2;
  PI_BY_TWO := np_pi / 2;
  TWO_PI := 2 * np_pi;
|}.

(** A track-only hypothesis along the polar axis: it starts 2 m below the
    sensor at time [t], points upwards and is 0.25 GeV (1.136 m) long. *)
Definition axis_hypo_params (t : float) : HypoParams :=
  mkHypoParams t 0 0 (-2) 0 0 0.25 0.

(** One bin per axis, wide enough for the whole track. *)
Definition axis_binning : BinningCoords (list float) :=
  {| bc_t := [-5; 20]; bc_r := [0; 4];
     bc_theta := [0; np_pi]; bc_phi := [0; 2 * np_pi] |}.

Definition axis_hypo (t : float) : Hypo :=
  set_binning
    (Hypo_init (NP := np_on_axes) (RC := retro_consts) (axis_hypo_params t) 1 1)
    axis_binning.

Definition sensor_at_origin : TimeSpaceCoord := mkTimeSpaceCoord 0 0 0 0.

Definition axis_run (t : float) : result Hypo :=
  compute_matrices (NP := np_on_axes) (RC := retro_consts)
    (axis_hypo t) sensor_at_origin.

(** The same run with the speed of light in ice (refractive index 1.33)
    for the speed constant. *)
Definition retro_consts_in_ice : RetroConsts := {|
  SPEED_OF_LIGHT_M_PER_NS := 0.2254078631578947;
  TRACK_M_PER_GEV := 0x1.22e8ba2e8ba2fp+2;
  PI_BY_TWO := np_pi / 2;
  TWO_PI := 2 * np_pi;
|}.

Definition axis_run_in_ice (t : float) : result Hypo :=
  compute_matrices (NP := np_on_axes) (RC := retro_consts_in_ice)
    (set_binning
       (Hypo_init (NP := np_on_axes) (RC := retro_consts_in_ice)
          (axis_hypo_params t) 1 1)
       axis_binning)
    sensor_at_origin.

(** The sum of the populated cells of the accumulator a run produced. *)
Definition accumulated (run : result Hypo) : option float :=
  match run with
  | Ok h => option_map (fun m => sparse_total (photon_counts m)) (matrices h)
  | Raise _ => None
  end.

Definition populated_cells (run : result Hypo) : option nat :=
  match run with
  | Ok h => option_map (fun m => length (map_to_list (photon_counts m))) (matrices h)
  | Raise _ => None
  end.

End HypoFast.

(** ** tables/pexp_5d.py *)

Module Pexp5d.
Import PyFloat Py.
Local Open Scope float_scope.
Set Warnings "-inexact-float".

(** *** numpy arrays: a shape and the entries, with numpy's index rules
    (an index [i] of an axis of size [n] is valid when [-n <= i < n], a
    negative one counts from the end; anything else is an IndexError). *)

Record ndarray (A : Type) := mkArray {
  shape : list nat;
  data : list nat -> A;
}.
Arguments mkArray {A}. Arguments shape {A}. Arguments data {A}.

Fixpoint norm_index (shp : list nat) (idx : list Z) : option (list nat) :=
  match shp, idx with
  | [], [] => Some []
  | n :: shp', i :: idx' =>
      let n' := Z.of_nat n in
      if ((- n' <=? i) && (i <? n'))%Z then
        option_map (cons (Z.to_nat (if (i <? 0)%Z then i + n' else i)%Z))
          (norm_index shp' idx')
      else None
  | _, _ => None
  end.

(** [a[i, j, ...]] with one index per axis. *)
Definition index {A} (a : ndarray A) (idx : list Z) : result A :=
  match norm_index (shape a) idx with
  | Some i => Ok (data a i)
  | None => Raise IndexError
  end.

(** [a[i, j, :, :]]: the leading axes fixed, the others kept. *)
Definition slice {A} (a : ndarray A) (idx : list Z) : result (ndarray A) :=
  match norm_index (firstn (length idx) (shape a)) idx with
  | Some i =>
      if decide (length idx <= length (shape a))%nat then
        Ok {| shape := skipn (length idx) (shape a);
              data := fun rest => data a (i ++ rest) |}
      else Raise IndexError
  | None => Raise IndexError
  end.

(** All the indices of a shape, in C order. *)
Fixpoint indices (shp : list nat) : list (list nat) :=
  match shp with
  | [] => [[]]
  | n :: shp' =>
      concat (List.map (fun i => List.map (cons i) (indices shp')) (seq 0 n))
  end.

Definition flatten {A} (a : ndarray A) : list A :=
  List.map (data a) (indices (shape a)).

Definition size {A} (a : ndarray A) : nat := foldr Nat.mul 1%nat (shape a).

(** *** What the module imports: the math library, and the helpers and
    constants of the package that live outside the file. *)
Class Libs := {
  math_acos : float -> float;
  (** [math.log]; it may raise (the interpreter does on arguments that
      are not positive). *)
  math_log : float -> result float;
  (** [x ** y] on floats. *)
  py_pow : float -> float -> float;
  np_mean : list float -> float;
  (** [retro.utils.geom.infer_power]. *)
  infer_power : list float -> float;
  (** [retro.utils.ckv]: only the first component of the result is used. *)
  survival_prob_from_cone :
    float -> float -> Z -> float -> float -> float -> float ->
    ndarray float -> Z -> Z -> float;
  survival_prob_from_smeared_cone :
    float -> Z -> float -> float -> float -> float ->
    ndarray float -> Z -> Z -> list float -> float;
  (** Draws of [np.random.RandomState(0).normal]. *)
  random_normal : float -> Z -> list float;
  np_deg2rad : float -> float;
  (** [retro.hypo.discrete_hypo]. *)
  SRC_OMNI : Z;
  SRC_CKV_BETA1 : Z;
}.

(** [retro.const.PI]. *)
Definition PI : float := 0x1.921fb54442d18p+1.

Definition MACHINE_EPS : float := 1e-16.

(** [np.isclose(a, b)] and [np.allclose(a, b)] with the default
    tolerances, for finite arguments. *)
Definition np_isclose (a b : float) : bool :=
  abs (a - b) <=? 1e-8 + 1e-5 * abs b.
Definition np_allclose (l : list float) (b : float) : bool :=
  forallb (fun a => np_isclose a b) l.

Definition np_diff (l : list float) : list float :=
  List.map (fun b => snd b - fst b) (bins l).

(** [np.min] and [np.max]: a NaN entry wins, an empty array raises. *)
Definition np_min (l : list float) : result float :=
  match l with
  | [] => Raise ValueError
  | a :: l' =>
      Ok (fold_left (fun m x => if is_nan m then m else
                                if is_nan x || (x <? m) then x else m) l' a)
  end.
Definition np_max (l : list float) : result float :=
  match l with
  | [] => Raise ValueError
  | a :: l' =>
      Ok (fold_left (fun m x => if is_nan m then m else
                                if is_nan x || (m <? x) then x else m) l' a)
  end.

(** [int(x)] with the interpreter's errors. *)
Definition py_int (x : float) : result Z :=
  match int_of_float x with
  | Some n => Ok n
  | None => Raise (if is_nan x then ValueError else OverflowError)
  end.

(** [l[0]] and [l[-1]]. *)
Definition first_edge (l : list float) : result float :=
  of_option IndexError (head l).
Definition last_edge (l : list float) : result float :=
  of_option IndexError (last l).

(** *** The records the function reads *)

Record Source := mkSource {
  s_x : float; s_y : float; s_z : float; s_t : float;
  s_photons : float; s_kind : Z;
  dir_costheta : float; dir_sintheta : float;
  dir_cosphi : float; dir_sinphi : float;
  ckv_theta : float; ckv_costheta : float; ckv_sintheta : float;
}.

Record DomInfo := mkDomInfo {
  operational : bool;
  d_x : float; d_y : float; d_z : float;
  quantum_efficiency : float;
  noise_rate_per_ns : float;
}.

(** The binning a table comes with. *)
Record TableMeta := mkTableMeta {
  r_bin_edges : list float;
  costheta_bin_edges : list float;
  t_bin_edges : list float;
  costhetadir_bin_edges : list float;
  deltaphidir_bin_edges : list float;
}.

Inductive TableKind := raw_uncompr | raw_templ_compr | ckv_uncompr | ckv_templ_compr.

(** A table is a 5D array of probabilities or, template compressed, a 3D
    array of (index, weight) entries into the template library. *)
Inductive Table :=
  | Plain (a : ndarray float)
  | Compressed (a : ndarray (Z * float)).

(** What [generate_pexp_5d_function] computes once and [pexp_5d] closes
    over. *)
Record Closure := mkClosure {
  tbl_is_raw : bool;
  tbl_is_ckv : bool;
  tbl_is_templ_compr : bool;
  compute_t_indep_exp : bool;
  num_phi_samples : Z;
  ckv_sigma_deg : float;
  template_library : ndarray float;
  rsquared_max : float;
  inv_r_power : float;
  n_r_bins : Z;
  table_dr_pwr : float;
  n_costheta_bins : Z;
  table_dcostheta : float;
  t_max : float;
  n_t_bins : Z;
  table_dt : float;
  n_costhetadir_bins : Z;
  table_dcosthetadir : float;
  last_costhetadir_bin_idx : Z;
  n_deltaphidir_bins : Z;
  table_dphidir : float;
  last_deltaphidir_bin_idx : Z;
  random_delta_thetas : list float;
}.

Definition py_assert (b : bool) : result unit :=
  if b then Ok tt else Raise AssertionError.

Definition len (l : list float) : Z := Z.of_nat (length l).

(** [2 / n] on two integers (true division). *)
Definition int_div (a n : Z) : result float :=
  if (n =? 0)%Z then Raise ZeroDivisionError
  else Ok (float_of_Z a / float_of_Z n).

Section Generate.
Context `{L : Libs}.

Definition generate_pexp_5d_function (table : TableMeta) (table_kind : TableKind)
    (compute_t_indep_exp_ use_directionality : bool)
    (num_phi_samples_ : option Z) (ckv_sigma_deg_ : option float)
    (template_library_ : ndarray float) : result Closure :=
  let tbl_is_raw_ :=
    match table_kind with raw_uncompr | raw_templ_compr => true | _ => false end in
  let tbl_is_ckv_ :=
    match table_kind with ckv_uncompr | ckv_templ_compr => true | _ => false end in
  let tbl_is_templ_compr_ :=
    match table_kind with raw_templ_compr | ckv_templ_compr => true | _ => false end in
  _ ← py_assert (tbl_is_raw_ || tbl_is_ckv_);
  let num_phi_samples_ := default 0%Z num_phi_samples_ in
  let ckv_sigma_deg_ := default 0 ckv_sigma_deg_ in
  r_min ← np_min (r_bin_edges table);
  _ ← py_assert (r_min =? 0);
  r_max ← np_max (r_bin_edges table);
  let rsquared_max_ := r_max * r_max in
  let r_power := infer_power (r_bin_edges table) in
  let inv_r_power_ := 1 / r_power in
  let n_r_bins_ := (len (r_bin_edges table) - 1)%Z in
  let table_dr_pwr_ := py_pow (r_max - r_min) inv_r_power_ / float_of_Z n_r_bins_ in
  let n_costheta_bins_ := (len (costheta_bin_edges table) - 1)%Z in
  table_dcostheta_ ← int_div 2 n_costheta_bins_;
  t_min ← np_min (t_bin_edges table);
  _ ← py_assert (t_min =? 0);
  t_max_ ← np_max (t_bin_edges table);
  let n_t_bins_ := (len (t_bin_edges table) - 1)%Z in
  let table_dt_ := (t_max_ - t_min) / float_of_Z n_t_bins_ in
  e0 ← first_edge (costhetadir_bin_edges table);
  _ ← py_assert (e0 =? -1);
  e1 ← last_edge (costhetadir_bin_edges table);
  _ ← py_assert (e1 =? 1);
  let n_costhetadir_bins_ := (len (costhetadir_bin_edges table) - 1)%Z in
  table_dcosthetadir_ ← int_div 2 n_costhetadir_bins_;
  _ ← py_assert (np_allclose (np_diff (costhetadir_bin_edges table))
                   table_dcosthetadir_);
  let last_costhetadir_bin_idx_ := (n_costhetadir_bins_ - 1)%Z in
  p0 ← first_edge (deltaphidir_bin_edges table);
  _ ← py_assert (p0 =? 0);
  p1 ← last_edge (deltaphidir_bin_edges table);
  _ ← py_assert (np_isclose p1 PI);
  let n_deltaphidir_bins_ := (len (deltaphidir_bin_edges table) - 1)%Z in
  let table_dphidir_ := PI / float_of_Z n_deltaphidir_bins_ in
  _ ← py_assert (np_allclose (np_diff (deltaphidir_bin_edges table))
                   table_dphidir_);
  let last_deltaphidir_bin_idx_ := (n_deltaphidir_bins_ - 1)%Z in
  let random_delta_thetas_ :=
    if tbl_is_raw_ && use_directionality && gtb ckv_sigma_deg_ 0
    then random_normal (np_deg2rad ckv_sigma_deg_) num_phi_samples_
    else [] in
  Ok {| tbl_is_raw := tbl_is_raw_; tbl_is_ckv := tbl_is_ckv_;
        tbl_is_templ_compr := tbl_is_templ_compr_;
        compute_t_indep_exp := compute_t_indep_exp_;
        num_phi_samples := num_phi_samples_;
        ckv_sigma_deg := ckv_sigma_deg_;
        template_library := template_library_;
        rsquared_max := rsquared_max_;
        inv_r_power := inv_r_power_;
        n_r_bins := n_r_bins_;
        table_dr_pwr := table_dr_pwr_;
        n_costheta_bins := n_costheta_bins_;
        table_dcostheta := table_dcostheta_;
        t_max := t_max_;
        n_t_bins := n_t_bins_;
        table_dt := table_dt_;
        n_costhetadir_bins := n_costhetadir_bins_;
        table_dcosthetadir := table_dcosthetadir_;
        last_costhetadir_bin_idx := last_costhetadir_bin_idx_;
        n_deltaphidir_bins := n_deltaphidir_bins_;
        table_dphidir := table_dphidir_;
        last_deltaphidir_bin_idx := last_deltaphidir_bin_idx_;
        random_delta_thetas := random_delta_thetas_ |}.

End Generate.

(** *** pexp_5d *)

Section Kernel.
Context `{L : Libs} (cl : Closure).

Definition table_lookup_mean (table : Table) (r_bin_idx costheta_bin_idx t_bin_idx : Z)
    : result float :=
  if tbl_is_templ_compr cl then
    match table with
    | Compressed a =>
        templ ← index a [r_bin_idx; costheta_bin_idx; t_bin_idx];
        lib ← slice (template_library cl) [fst templ];
        Ok (snd templ / float_of_Z (Z.of_nat (size lib)))
    | Plain _ => Raise TypeError
    end
  else
    match table with
    | Plain a =>
        sl ← slice a [r_bin_idx; costheta_bin_idx; t_bin_idx];
        Ok (np_mean (flatten sl))
    | Compressed _ => Raise TypeError
    end.

Definition table_lookup (table : Table)
    (r_bin_idx costheta_bin_idx t_bin_idx costhetadir_bin_idx deltaphidir_bin_idx : Z)
    : result float :=
  if tbl_is_templ_compr cl then
    match table with
    | Compressed a =>
        templ ← index a [r_bin_idx; costheta_bin_idx; t_bin_idx];
        v ← index (template_library cl)
              [fst templ; costhetadir_bin_idx; deltaphidir_bin_idx];
        Ok (snd templ * v)
    | Plain _ => Raise TypeError
    end
  else
    match table with
    | Plain a =>
        index a [r_bin_idx; costheta_bin_idx; t_bin_idx;
                 costhetadir_bin_idx; deltaphidir_bin_idx]
    | Compressed _ => Raise TypeError
    end.

(** The two direction indices of the Cherenkov table, upper edge
    inclusive. *)
Definition costhetadir_index (pdir_costheta : float) : result Z :=
  costhetadir_bin_idx ← py_int ((pdir_costheta + 1.0) / table_dcosthetadir cl);
  Ok (if (last_costhetadir_bin_idx cl <? costhetadir_bin_idx)%Z
      then last_costhetadir_bin_idx cl else costhetadir_bin_idx).

Definition deltaphidir_index (pdir_cosdeltaphi : float) : result Z :=
  let pdir_deltaphi := abs (math_acos pdir_cosdeltaphi) in
  deltaphidir_bin_idx ← py_int (pdir_deltaphi / table_dphidir cl);
  Ok (if (last_deltaphidir_bin_idx cl <? deltaphidir_bin_idx)%Z
      then last_deltaphidir_bin_idx cl else deltaphidir_bin_idx).

(** The radial and polar indices of a source at displacement [dz] and
    distance [r] from the sensor. *)
Definition r_index (r : float) : result Z :=
  py_int (py_pow r (inv_r_power cl) / table_dr_pwr cl).
Definition costheta_index (dz r : float) : result Z :=
  py_int ((1 - dz / r) / table_dcostheta cl).

(** The names a turn of the source loop binds before the hit loop. *)
Record Locals := mkLocals {
  t_indep_surv_prob : option float;
  costhetadir_bin_idx : option Z;
  deltaphidir_bin_idx : option Z;
}.

(** The branch on the source kind. *)
Definition kind_branch (source : Source) (dx dy rhosquared : float)
    (r_bin_idx costheta_bin_idx : Z) (t_indep_table : ndarray float)
    : result Locals :=
  let source_kind := s_kind source in
  if (source_kind =? SRC_OMNI)%Z && compute_t_indep_exp cl then
    sl ← slice t_indep_table [r_bin_idx; costheta_bin_idx];
    Ok (mkLocals (Some (np_mean (flatten sl))) None None)
  else if (source_kind =? SRC_CKV_BETA1)%Z then
    let pdir_costheta := dir_costheta source in
    let rho := PrimFloat.sqrt rhosquared in
    let '(pdir_cosdeltaphi, pdir_sindeltaphi) :=
      if rho <=? MACHINE_EPS then (1.0, Some 0.0)
      else
        let c := dir_cosphi source * dx / rho + dir_sinphi source * dy / rho in
        let c := py_min 1 (py_max (-1) c) in
        (c, if tbl_is_raw cl then Some (PrimFloat.sqrt (1 - c * c)) else None) in
    if tbl_is_raw cl then
      let pdir_sintheta := dir_sintheta source in
      if gtb (ckv_sigma_deg cl) 0 then
        if compute_t_indep_exp cl then
          sin_ ← of_option UnboundLocalError pdir_sindeltaphi;
          sl ← slice t_indep_table [r_bin_idx; costheta_bin_idx];
          Ok (mkLocals
                (Some (survival_prob_from_smeared_cone (ckv_theta source)
                         (num_phi_samples cl) pdir_costheta pdir_sintheta
                         pdir_cosdeltaphi sin_ sl
                         (n_costhetadir_bins cl) (n_deltaphidir_bins cl)
                         (random_delta_thetas cl)))
                None None)
        else Ok (mkLocals None None None)
      else
        if compute_t_indep_exp cl then
          sin_ ← of_option UnboundLocalError pdir_sindeltaphi;
          sl ← slice t_indep_table [r_bin_idx; costheta_bin_idx];
          Ok (mkLocals
                (Some (survival_prob_from_cone (ckv_costheta source)
                         (ckv_sintheta source) (num_phi_samples cl)
                         pdir_costheta pdir_sintheta pdir_cosdeltaphi sin_ sl
                         (n_costhetadir_bins cl) (n_deltaphidir_bins cl)))
                None None)
        else Ok (mkLocals None None None)
    else
      cthd ← costhetadir_index pdir_costheta;
      dphd ← deltaphidir_index pdir_cosdeltaphi;
      p ← index t_indep_table [r_bin_idx; costheta_bin_idx; cthd; dphd];
      if p =? 0 then Raise ValueError
      else Ok (mkLocals (Some p) (Some cthd) (Some dphd))
  else Raise NotImplementedError.

(** One turn of the loop over the hits, for one source. *)
Definition hit_step (source : Source) (r_bin_idx costheta_bin_idx : Z)
    (lc : Locals) (table : Table) (table_norm : ndarray float)
    (hit_t_idx : nat) (hit : float * float)
    (exp_p_at_hit_times : list float) : result (list float) :=
  let hit_time := fst hit in
  let source_t := s_t source in
  if negb (source_t <=? hit_time) then Ok exp_p_at_hit_times
  else
    let dt := hit_time - source_t in
    if geb dt (t_max cl) then Ok exp_p_at_hit_times
    else
      t_bin_idx ← py_int (dt / table_dt cl);
      r_t_bin_norm ← index table_norm [r_bin_idx; t_bin_idx];
      surv_prob_at_hit_t ←
        (if (s_kind source =? SRC_OMNI)%Z then
           table_lookup_mean table r_bin_idx costheta_bin_idx t_bin_idx
         else if (s_kind source =? SRC_CKV_BETA1)%Z then
           cthd ← of_option UnboundLocalError (costhetadir_bin_idx lc);
           dphd ← of_option UnboundLocalError (deltaphidir_bin_idx lc);
           table_lookup table r_bin_idx costheta_bin_idx t_bin_idx cthd dphd
         else Raise NotImplementedError);
      old ← of_option IndexError (exp_p_at_hit_times !! hit_t_idx);
      Ok (<[hit_t_idx := old + s_photons source * r_t_bin_norm * surv_prob_at_hit_t]>
            exp_p_at_hit_times)
  .

(** One turn of the loop over the sources. *)
Definition source_step (hits : list (float * float)) (dom_info : DomInfo)
    (table : Table) (table_norm t_indep_table t_indep_table_norm : ndarray float)
    (source : Source) (acc : float * list float) : result (float * list float) :=
  let '(exp_p_at_all_times, exp_p_at_hit_times) := acc in
  let dx := d_x dom_info - s_x source in
  let dy := d_y dom_info - s_y source in
  let dz := d_z dom_info - s_z source in
  let rhosquared := dx * dx + dy * dy in
  let rsquared := rhosquared + dz * dz in
  if geb rsquared (rsquared_max cl) then Ok acc
  else
    let r := PrimFloat.sqrt rsquared in
    r_bin_idx ← r_index r;
    costheta_bin_idx ← costheta_index dz r;
    lc ← kind_branch source dx dy rhosquared r_bin_idx costheta_bin_idx t_indep_table;
    let source_photons := s_photons source in
    exp_p_at_all_times ←
      (if compute_t_indep_exp cl then
         ti_norm ← index t_indep_table_norm [r_bin_idx];
         if negb (gtb ti_norm 0) then Raise ValueError
         else
           p ← of_option UnboundLocalError (t_indep_surv_prob lc);
           Ok (exp_p_at_all_times + source_photons * ti_norm * p)
       else Ok exp_p_at_all_times);
    exp_p_at_hit_times ←
      foldi_r (hit_step source r_bin_idx costheta_bin_idx lc table table_norm)
        hits exp_p_at_hit_times;
    Ok (exp_p_at_all_times, exp_p_at_hit_times).

Fixpoint source_loop (hits : list (float * float)) (dom_info : DomInfo)
    (table : Table) (table_norm t_indep_table t_indep_table_norm : ndarray float)
    (sources : list Source) (acc : float * list float)
    : result (float * list float) :=
  match sources with
  | [] => Ok acc
  | source :: rest =>
      acc' ← source_step hits dom_info table table_norm t_indep_table
               t_indep_table_norm source acc;
      source_loop hits dom_info table table_norm t_indep_table
        t_indep_table_norm rest acc'
  end.

(** The sum of the log terms over the hits. *)
Fixpoint sum_log (dom_info : DomInfo) (hits : list (float * float))
    (exp_p_at_hit_times : list float) (sum_log_at_hit_times : float)
    : result float :=
  match hits, exp_p_at_hit_times with
  | hit :: hits', ep_at_ht :: eps' =>
      let hit_mult := snd hit in
      lg ← math_log (quantum_efficiency dom_info * ep_at_ht
                      + noise_rate_per_ns dom_info);
      sum_log dom_info hits' eps' (sum_log_at_hit_times + hit_mult * lg)
  | [], _ => Ok sum_log_at_hit_times
  | _ :: _, [] => Raise IndexError
  end.

Definition pexp_5d (sources : list Source) (hits : list (float * float))
    (dom_info : DomInfo) (time_window : float)
    (table : Table) (table_norm t_indep_table t_indep_table_norm : ndarray float)
    : result (float * float) :=
  let num_hits := length hits in
  if negb (operational dom_info) then Ok (0, 0)
  else
    '(exp_p_at_all_times, exp_p_at_hit_times) ←
      source_loop hits dom_info table table_norm t_indep_table
        t_indep_table_norm sources (0, repeat 0 num_hits);
    sum_log_at_hit_times ← sum_log dom_info hits exp_p_at_hit_times 0;
    let exp_p_at_all_times :=
      exp_p_at_all_times * quantum_efficiency dom_info
      + noise_rate_per_ns dom_info * time_window in
    if np_isinf sum_log_at_hit_times then Raise ValueError
    else Ok (exp_p_at_all_times, sum_log_at_hit_times).

End Kernel.

(** *** Notions used to state the properties *)

(** A hit the source cannot have caused, or one too late for the table,
    is skipped. *)
Definition skips (cl : Closure) (source : Source) (hit : float * float) : Prop :=
  flt (fst hit) (s_t source)
  \/ is_nan (fst hit) = true
  \/ fle (t_max cl) (fst hit - s_t source).

(** A source that gets past the radial cut and whose radial bin has a
    time-integrated normalization that is not strictly positive. *)
Definition bad_norm `{L : Libs} (cl : Closure) (dom_info : DomInfo)
    (t_indep_table_norm : ndarray float) (source : Source) : Prop :=
  let dx := d_x dom_info - s_x source in
  let dy := d_y dom_info - s_y source in
  let dz := d_z dom_info - s_z source in
  let rsquared := dx * dx + dy * dy + dz * dz in
  geb rsquared (rsquared_max cl) = false
  /\ exists r_bin_idx ti_norm,
       r_index cl (PrimFloat.sqrt rsquared) = Ok r_bin_idx
       /\ index t_indep_table_norm [r_bin_idx] = Ok ti_norm
       /\ gtb ti_norm 0 = false.

(** The radial cut of the source loop: a source this far from the sensor
    is passed over. *)
Definition beyond_cut (cl : Closure) (dom_info : DomInfo) (source : Source)
    : bool :=
  let dx := d_x dom_info - s_x source in
  let dy := d_y dom_info - s_y source in
  let dz := d_z dom_info - s_z source in
  geb (dx * dx + dy * dy + dz * dz) (rsquared_max cl).

(** A hit that gets past the two tests of the hit loop, so that the
    tables are looked up for it. *)
Definition reaches_lookup (cl : Closure) (source : Source)
    (hit : float * float) : bool :=
  (s_t source <=? fst hit) && negb (geb (fst hit - s_t source) (t_max cl)).

(** The defaults of [t_indep_table] and [t_indep_table_norm]. *)
Definition empty_4d_array : ndarray float :=
  mkArray [0; 0; 0; 0]%nat (fun _ => 0).
Definition empty_1d_array : ndarray float := mkArray [0%nat] (fun _ => 0).

(** *** Reference values for worked examples *)

(** The library functions at the arguments the examples reach: [acos] at
    +-1, [log] at 1, at 1.25 and at NaN, [x ** 1.0], and the mean of a short array
    (numpy adds fewer than eight entries one after the other).  A
    logarithm outside these raises NotImplementedError; the other
    functions answer NaN there. *)
Definition libs_on_axes : Libs := {|
  math_acos x := if x =? 1 then 0 else if x =? -1 then PI else nan;
  math_log x := if is_nan x then Ok nan
                else if x <=? 0 then Raise ValueError
                else if x =? 1 then Ok 0
                else if x =? 1.25 then Ok 0x1.c8ff7c79a9a22p-3
                else Raise NotImplementedError;
  py_pow x y := if y =? 1 then x else nan;
  np_mean l := fold_left PrimFloat.add l 0 / float_of_Z (Z.of_nat (length l));
  infer_power _ := 1;
  survival_prob_from_cone _ _ _ _ _ _ _ _ _ _ := nan;
  survival_prob_from_smeared_cone _ _ _ _ _ _ _ _ _ _ := nan;
  random_normal _ _ := [];
  np_deg2rad x := x * (PI / 180);
  SRC_OMNI := 0;
  SRC_CKV_BETA1 := 1;
|}.

(** The binning of a small Cherenkov table: two bins on every axis. *)
Definition small_meta : TableMeta :=
  {| r_bin_edges := [0; 5; 10];
     costheta_bin_edges := [-1; 0; 1];
     t_bin_edges := [0; 10; 20];
     costhetadir_bin_edges := [-1; 0; 1];
     deltaphidir_bin_edges := [0; PI / 2; PI] |}.

Definition small_closure : result Closure :=
  generate_pexp_5d_function (L := libs_on_axes) small_meta ckv_uncompr
    true true None None (mkArray [] (fun _ => 0)).

(** The same with forty polar-angle bins. *)
Definition forty_meta : TableMeta :=
  {| r_bin_edges := [0; 5; 10];
     costheta_bin_edges :=
       List.map (fun i => -1 + float_of_Z (Z.of_nat i) * 0.05) (seq 0 41);
     t_bin_edges := [0; 10; 20];
     costhetadir_bin_edges := [-1; 0; 1];
     deltaphidir_bin_edges := [0; PI / 2; PI] |}.

Definition forty_closure : result Closure :=
  generate_pexp_5d_function (L := libs_on_axes) forty_meta ckv_uncompr
    true true None None (mkArray [] (fun _ => 0)).

Definition constant (shp : list nat) (v : float) : ndarray float :=
  mkArray shp (fun _ => v).

(** A working sensor at the origin. *)
Definition small_dom : DomInfo :=
  {| operational := true; d_x := 0; d_y := 0; d_z := 0;
     quantum_efficiency := 1; noise_rate_per_ns := 1 |}.

(** A Cherenkov source on the vertical through the sensor, at height [z],
    emitting upwards at time 0. *)
Definition axis_source (z : float) : Source :=
  {| s_x := 0; s_y := 0; s_z := z; s_t := 0; s_photons := 1; s_kind := 1;
     dir_costheta := 1; dir_sintheta := 0; dir_cosphi := 1; dir_sinphi := 0;
     ckv_theta := 0; ckv_costheta := 1; ckv_sintheta := 0 |}.

(** A run on the small table with every entry of the tables and of the
    normalizations given by one number each. *)
Definition small_run (sources : list Source) (hits : list (float * float))
    (table_entry table_norm_entry t_indep_entry t_indep_norm_entry : float)
    : result (float * float) :=
  cl ← small_closure;
  pexp_5d (L := libs_on_axes) cl sources hits small_dom 100
    (Plain (constant [2; 2; 2; 2; 2]%nat table_entry))
    (constant [2; 2]%nat table_norm_entry)
    (constant [2; 2; 2; 2]%nat t_indep_entry)
    (constant [2]%nat t_indep_norm_entry).

(** A closure on the small binning for a table of any kind, with or
    without the time-independent expectation. *)
Definition small_closure_of (kind : TableKind) (compute : bool)
    : result Closure :=
  generate_pexp_5d_function (L := libs_on_axes) small_meta kind
    compute true None None (mkArray [] (fun _ => 0)).

(** What it returns for an uncompressed table, raw or Cherenkov. *)
Definition small_cl (raw compute : bool) : Closure :=
  {| tbl_is_raw := raw; tbl_is_ckv := negb raw;
     tbl_is_templ_compr := false; compute_t_indep_exp := compute;
     num_phi_samples := 0; ckv_sigma_deg := 0;
     template_library := mkArray [] (fun _ => 0);
     rsquared_max := 100; inv_r_power := 1; n_r_bins := 2;
     table_dr_pwr := 5; n_costheta_bins := 2; table_dcostheta := 1;
     t_max := 20; n_t_bins := 2; table_dt := 10;
     n_costhetadir_bins := 2; table_dcosthetadir := 1;
     last_costhetadir_bin_idx := 1; n_deltaphidir_bins := 2;
     table_dphidir := PI / 2; last_deltaphidir_bin_idx := 1;
     random_delta_thetas := [] |}.

(** An omnidirectional source on the vertical through the sensor. *)
Definition omni_source (z : float) : Source :=
  {| s_x := 0; s_y := 0; s_z := z; s_t := 0; s_photons := 1; s_kind := 0;
     dir_costheta := 0; dir_sintheta := 0; dir_cosphi := 0; dir_sinphi := 0;
     ckv_theta := 0; ckv_costheta := 0; ckv_sintheta := 0 |}.

End Pexp5d.
(** ** Facts about Python float comparisons *)

Module PyFloatFacts.
Import PyFloat.
Local Open Scope float_scope.

(** The order of [SFcompare] is a total preorder away from NaN. *)

Ltac sf_cases :=
  repeat match goal with
  | x : spec_float |- _ => destruct x
  | b : bool |- _ => destruct b
  end; simpl in *; try congruence; try reflexivity.

Ltac cmp_cases :=
  repeat match goal with
  | H : context [Z.compare ?a ?b] |- _ =>
      destruct (Z.compare_spec a b); simpl in H
  | |- context [Z.compare ?a ?b] =>
      destruct (Z.compare_spec a b); simpl
  | H : context [PosDef.Pos.compare_cont Eq ?a ?b] |- _ =>
      change (PosDef.Pos.compare_cont Eq a b) with (Pos.compare a b) in H;
      destruct (Pos.compare_spec a b); simpl in H
  | |- context [PosDef.Pos.compare_cont Eq ?a ?b] =>
      change (PosDef.Pos.compare_cont Eq a b) with (Pos.compare a b);
      destruct (Pos.compare_spec a b); simpl
  end; subst; try congruence; try reflexivity; try lia.

Lemma SFleb_trans x y z :
  SFleb x y = true -> SFleb y z = true -> SFleb x z = true.
Proof. unfold SFleb, SFcompare. sf_cases; cmp_cases. Qed.

Lemma SFltb_leb_trans x y z :
  SFltb x y = true -> SFleb y z = true -> SFltb x z = true.
Proof. unfold SFleb, SFltb, SFcompare. sf_cases; cmp_cases. Qed.

Lemma SFleb_ltb_trans x y z :
  SFleb x y = true -> SFltb y z = true -> SFltb x z = true.
Proof. unfold SFleb, SFltb, SFcompare. sf_cases; cmp_cases. Qed.

Lemma SFltb_leb x y : SFltb x y = true -> SFleb x y = true.
Proof. unfold SFleb, SFltb. destruct (SFcompare x y) as [[]|]; congruence. Qed.

Lemma SFltb_negb_leb x y :
  sf_is_nan x = false -> sf_is_nan y = false ->
  SFltb y x = negb (SFleb x y).
Proof. unfold SFleb, SFltb, SFcompare. sf_cases; cmp_cases. Qed.

Lemma SFleb_num x y :
  SFleb x y = true -> sf_is_nan x = false /\ sf_is_nan y = false.
Proof. unfold SFleb, SFcompare. sf_cases; auto. Qed.

Lemma SFltb_num x y :
  SFltb x y = true -> sf_is_nan x = false /\ sf_is_nan y = false.
Proof. unfold SFltb, SFcompare. sf_cases; auto. Qed.

Lemma SFeqb_refl_num x : SFeqb x x = negb (sf_is_nan x).
Proof. unfold SFeqb, SFcompare. sf_cases; cmp_cases. Qed.

Lemma SFleb_refl x : sf_is_nan x = false -> SFleb x x = true.
Proof. unfold SFleb, SFcompare. sf_cases; cmp_cases. Qed.

Lemma is_nan_sf x : is_nan x = sf_is_nan (Prim2SF x).
Proof.
  unfold is_nan. rewrite FloatAxioms.eqb_spec, SFeqb_refl_num.
  now rewrite negb_involutive.
Qed.

(** The same facts on primitive floats. *)

Lemma leb_trans x y z : fle x y -> fle y z -> fle x z.
Proof. unfold fle. rewrite !leb_spec. apply SFleb_trans. Qed.

Lemma ltb_leb_trans x y z : flt x y -> fle y z -> flt x z.
Proof. unfold fle, flt. rewrite !leb_spec, !ltb_spec. apply SFltb_leb_trans. Qed.

Lemma leb_ltb_trans x y z : fle x y -> flt y z -> flt x z.
Proof. unfold fle, flt. rewrite !leb_spec, !ltb_spec. apply SFleb_ltb_trans. Qed.

Lemma ltb_trans x y z : flt x y -> flt y z -> flt x z.
Proof.
  intros Hxy Hyz. eapply ltb_leb_trans; [exact Hxy|].
  unfold flt, fle in *. rewrite leb_spec. rewrite ltb_spec in Hyz.
  now apply SFltb_leb.
Qed.

Lemma ltb_leb x y : flt x y -> fle x y.
Proof. unfold fle, flt. rewrite leb_spec, ltb_spec. apply SFltb_leb. Qed.

Lemma ltb_negb_leb x y :
  is_num x -> is_num y -> (y <? x) = negb (x <=? y).
Proof.
  unfold is_num. rewrite !is_nan_sf, leb_spec, ltb_spec.
  apply SFltb_negb_leb.
Qed.

Lemma leb_num x y : fle x y -> is_num x /\ is_num y.
Proof. unfold fle, is_num. rewrite !is_nan_sf, leb_spec. apply SFleb_num. Qed.

Lemma ltb_num x y : flt x y -> is_num x /\ is_num y.
Proof. unfold flt, is_num. rewrite !is_nan_sf, ltb_spec. apply SFltb_num. Qed.

Lemma leb_refl x : is_num x -> fle x x.
Proof. unfold fle, is_num. rewrite is_nan_sf, leb_spec. apply SFleb_refl. Qed.

Lemma ltb_false_leb x y : is_num x -> is_num y -> (x <? y) = false -> fle y x.
Proof.
  intros Hx Hy H. unfold fle. rewrite (ltb_negb_leb y x Hy Hx) in H.
  now destruct (y <=? x).
Qed.

Lemma leb_not_ltb x y : fle x y -> (y <? x) = false.
Proof.
  intros H. destruct (leb_num _ _ H) as [Hx Hy].
  rewrite (ltb_negb_leb x y Hx Hy). unfold fle in H. now rewrite H.
Qed.

Lemma ltb_not_leb x y : flt x y -> (y <=? x) = false.
Proof.
  intros H. destruct (ltb_num _ _ H) as [Hx Hy].
  unfold flt in H. rewrite (ltb_negb_leb y x Hy Hx) in H.
  now destruct (y <=? x).
Qed.

(** The floats equal to zero are the two zeros. *)
Lemma eqb_zero (x : float) : (x =? 0) = true -> x = 0 \/ x = -0.
Proof.
  rewrite FloatAxioms.eqb_spec. intros H.
  rewrite <- (SF2Prim_Prim2SF x).
  change (Prim2SF 0) with (S754_zero false) in H.
  destruct (Prim2SF x) as [[]|[]| |[] ? ?]; simpl in H; try discriminate;
    [right | left]; reflexivity.
Qed.

End PyFloatFacts.

(** ** Facts about binary64 division

    The division of two positive normal numbers, read off its
    specification: the integer quotient of the mantissas has 53 or 54
    bits, and the result is within half a unit of the last place of the
    exact quotient.  This is what the bin width [num / n] and the index
    [int(num / (num / n))] of an upper edge need. *)

Module BinaryDivision.
Import PyFloat Binary64.
Local Open Scope Z_scope.

(** *** Mantissas of 53 bits *)







(** *** Rounding a mantissa of 53 or 54 bits *)












(** *** The division of two normal numbers *)









(** *** An integer below [2^53] as a float *)




(** *** Dividing a number by its quotient by an integer *)







End BinaryDivision.

(** ** Proofs for hypo_fast.py *)

Module HypoFastSpec.
Import PyFloat Py PyFloatFacts HypoFast.
Local Open Scope float_scope.
Set Warnings "-inexact-float".

(** *** Track.extent and Track.point *)

(** C8: for a window [t_low <= t_high], [extent] returns the overlap
    [(max(t_low, t0), min(t_high, t0 + dt))] exactly when
    [t0 + dt >= t_low] and [t_high >= t0], and [None] otherwise. *)
Theorem extent_overlap (self : Track) (t_low t_high : float) :
  fle t_low t_high ->
  (fle t_low (t0 self + dt self) /\ fle (t0 self) t_high ->
   extent self t_low t_high
   = Some (py_max t_low (t0 self), py_min t_high (t0 self + dt self)))
  /\ (~ (fle t_low (t0 self + dt self) /\ fle (t0 self) t_high) ->
      extent self t_low t_high = None)
  /\ (forall iv, extent self t_low t_high = Some iv ->
      fle t_low (t0 self + dt self) /\ fle (t0 self) t_high).
Proof.
  intros _. unfold extent, geb, fle.
  destruct (t_low <=? t0 self + dt self) eqn:E1;
    destruct (t0 self <=? t_high) eqn:E2; simpl;
    repeat split; try tauto; try congruence; intros [? ?]; congruence.
Qed.

Lemma extent_overlap_witness :
  let trk := track (axis_hypo 0) in
  extent trk (-5) 20 = Some (py_max (-5) (t0 trk), py_min 20 (t0 trk + dt trk))
  /\ extent trk 5 20 = None.
Proof.
  intros trk.
  destruct (extent_overlap trk (-5) 20 eq_refl) as (H1 & _).
  destruct (extent_overlap trk 5 20 eq_refl) as (_ & H2 & _).
  split.
  - apply H1. split; reflexivity.
  - apply H2. intros [H _]. vm_compute in H. discriminate.
Defined.

(** C9: [point] fails exactly when [t] is outside [[t0, t0 + dt]]; inside
    it returns the origin displaced by the speed of light times
    [t - t0] along the direction of the track. *)
Theorem point_guard `{RC : RetroConsts} (self : Track) (t : float) :
  (point self t = None <-> ~ (fle (t0 self) t /\ fle t (t0 self + dt self)))
  /\ (fle (t0 self) t /\ fle t (t0 self + dt self) ->
      point self t
      = Some (x0 self + SPEED_OF_LIGHT_M_PER_NS * (t - t0 self)
                        * sintheta self * cosphi self,
              y0 self + SPEED_OF_LIGHT_M_PER_NS * (t - t0 self)
                        * sintheta self * sinphi self,
              z0 self + SPEED_OF_LIGHT_M_PER_NS * (t - t0 self)
                        * costheta self)).
Proof.
  unfold point, fle.
  destruct (t0 self <=? t) eqn:E1; destruct (t <=? t0 self + dt self) eqn:E2;
    simpl; split; try split; try tauto; try congruence;
    try (intros _ [? ?]; congruence); try (intros [? ?]; congruence);
    intros H; exfalso; apply H; auto.
Qed.

(** *** max, min and sorted on numbers *)

Lemma py_max_cases a b : py_max a b = a \/ py_max a b = b.
Proof. unfold py_max. destruct (a <? b); auto. Qed.

Lemma py_min_cases a b : py_min a b = a \/ py_min a b = b.
Proof. unfold py_min. destruct (b <? a); auto. Qed.

Lemma py_max_ub a b :
  is_num a -> is_num b -> fle a (py_max a b) /\ fle b (py_max a b).
Proof.
  intros Ha Hb. unfold py_max. destruct (a <? b) eqn:E.
  - split; [now apply ltb_leb | now apply leb_refl].
  - split; [now apply leb_refl | now apply ltb_false_leb].
Qed.

Lemma py_min_lb a b :
  is_num a -> is_num b -> fle (py_min a b) a /\ fle (py_min a b) b.
Proof.
  intros Ha Hb. unfold py_min. destruct (b <? a) eqn:E.
  - split; [now apply ltb_leb | now apply leb_refl].
  - split; [now apply leb_refl | now apply ltb_false_leb].
Qed.

Lemma py_max_num a b : is_num a -> is_num b -> is_num (py_max a b).
Proof. intros. destruct (py_max_cases a b) as [-> | ->]; auto. Qed.

Lemma py_min_num a b : is_num a -> is_num b -> is_num (py_min a b).
Proof. intros. destruct (py_min_cases a b) as [-> | ->]; auto. Qed.

Lemma py_max3_ub a b c :
  is_num a -> is_num b -> is_num c ->
  fle a (py_max3 a b c) /\ fle b (py_max3 a b c) /\ fle c (py_max3 a b c).
Proof.
  intros Ha Hb Hc. unfold py_max3.
  pose proof (py_max_num a b Ha Hb) as Hm.
  destruct (py_max_ub a b Ha Hb) as [H1 H2].
  destruct (py_max_ub (py_max a b) c Hm Hc) as [H3 H4].
  repeat split; eauto using leb_trans.
Qed.

Lemma py_min3_lb a b c :
  is_num a -> is_num b -> is_num c ->
  fle (py_min3 a b c) a /\ fle (py_min3 a b c) b /\ fle (py_min3 a b c) c.
Proof.
  intros Ha Hb Hc. unfold py_min3.
  pose proof (py_min_num a b Ha Hb) as Hm.
  destruct (py_min_lb a b Ha Hb) as [H1 H2].
  destruct (py_min_lb (py_min a b) c Hm Hc) as [H3 H4].
  repeat split; eauto using leb_trans.
Qed.

Lemma py_max3_cases a b c :
  py_max3 a b c = a \/ py_max3 a b c = b \/ py_max3 a b c = c.
Proof.
  unfold py_max3. destruct (py_max_cases (py_max a b) c) as [-> | ->]; auto.
  destruct (py_max_cases a b) as [-> | ->]; auto.
Qed.

Lemma py_min3_cases a b c :
  py_min3 a b c = a \/ py_min3 a b c = b \/ py_min3 a b c = c.
Proof.
  unfold py_min3. destruct (py_min_cases (py_min a b) c) as [-> | ->]; auto.
  destruct (py_min_cases a b) as [-> | ->]; auto.
Qed.

(** *** inner_loop *)

(** The rule of the triple intersection: the largest lower end is below
    the smallest upper end exactly when the intervals share a point. *)
Lemma max_min_rule (r theta phi : float * float) :
  is_num (fst r) -> is_num (snd r) ->
  is_num (fst theta) -> is_num (snd theta) ->
  is_num (fst phi) -> is_num (snd phi) ->
  fle (py_max3 (fst r) (fst theta) (fst phi))
      (py_min3 (snd r) (snd theta) (snd phi))
  <-> exists x, common_point r theta phi x.
Proof.
  intros R0 R1 T0 T1 P0 P1.
  destruct (py_max3_ub _ _ _ R0 T0 P0) as (U1 & U2 & U3).
  destruct (py_min3_lb _ _ _ R1 T1 P1) as (L1 & L2 & L3).
  split.
  - intros H. exists (py_max3 (fst r) (fst theta) (fst phi)).
    unfold common_point. repeat split; eauto using leb_trans.
  - intros (x & X1 & X2 & X3 & X4 & X5 & X6).
    apply leb_trans with x.
    + destruct (py_max3_cases (fst r) (fst theta) (fst phi))
        as [-> | [-> | ->]]; assumption.
    + destruct (py_min3_cases (snd r) (snd theta) (snd phi))
        as [-> | [-> | ->]]; assumption.
Qed.

(** The single cell a call on one interval per axis can touch. *)
Lemma inner_loop_single (z : Sparse) (k : nat) (r theta phi : float * float)
    (ppm : float) :
  inner_loop z k [phi] [theta] [] [r] [] ppm
  = if skipped phi || skipped theta || skipped r then z
    else deposit z k 0 0 0 r theta phi ppm.
Proof.
  unfold inner_loop, theta_loop, r_loop, foldi. simpl.
  destruct (skipped phi), (skipped theta), (skipped r); reflexivity.
Qed.

(** *** What inner_loop writes, cell by cell *)

Lemma sparse_add_other (z : Sparse) (idx idx' : nat * nat * nat * nat)
    (v : float) :
  idx' <> idx -> sparse_add z idx v !! idx' = z !! idx'.
Proof. intros H. unfold sparse_add. now rewrite lookup_insert_ne. Qed.

Lemma deposit_other z k j m i r theta phi ppm idx' :
  idx' <> (k, j, m, i) ->
  deposit z k j m i r theta phi ppm !! idx' = z !! idx'.
Proof.
  intros H. unfold deposit. destruct (_ <=? _); [|reflexivity].
  now apply sparse_add_other.
Qed.

(** A loop with index whose body leaves a cell alone leaves it alone. *)
Lemma foldi_from_other {A : Type} (f : nat -> A -> Sparse -> Sparse)
    (idx' : nat * nat * nat * nat) (l : list A) :
  forall (start : nat) (z : Sparse),
  (forall n a z, (start <= n < start + length l)%nat ->
                 f n a z !! idx' = z !! idx') ->
  foldi_from f start l z !! idx' = z !! idx'.
Proof.
  induction l as [|a l IH]; intros start z Hf; [reflexivity|].
  simpl. rewrite IH.
  - apply Hf. simpl. lia.
  - intros n a' z' Hn. apply Hf. simpl. lia.
Qed.

Lemma r_loop_other k m i theta phi r_inter ppm z k' j' m' i' :
  (k' <> k \/ m' <> m \/ i' <> i \/ (length r_inter <= j')%nat) ->
  r_loop k m i theta phi r_inter ppm z !! (k', j', m', i')
  = z !! (k', j', m', i').
Proof.
  intros H. unfold r_loop, foldi. apply foldi_from_other.
  intros n a z0 Hn. destruct (skipped a); [reflexivity|].
  apply deposit_other. intros [= -> -> -> ->]. lia.
Qed.

Lemma theta_loop_other k i phi theta_inter r_neg r_pos ppm z k' j' m' i' :
  (k' <> k \/ i' <> i \/ (length theta_inter <= m')%nat
   \/ (Nat.max (length r_neg) (length r_pos) <= j')%nat) ->
  theta_loop k i phi theta_inter r_neg r_pos ppm z !! (k', j', m', i')
  = z !! (k', j', m', i').
Proof.
  intros H. unfold theta_loop, foldi. apply foldi_from_other.
  intros n a z0 Hn. destruct (skipped a); [reflexivity|].
  rewrite !r_loop_other; [reflexivity | |];
    (destruct (decide (m' = n)) as [-> | ?]; [|tauto]);
    destruct H as [H | [H | [H | H]]]; auto; try lia; right; right; right; lia.
Qed.

Lemma inner_loop_other (z : Sparse) (k : nat)
    (phi_inter theta_inter_neg theta_inter_pos r_inter_neg r_inter_pos :
       list (float * float))
    (ppm : float) (k' j' m' i' : nat) :
  (k' <> k
   \/ (length phi_inter <= i')%nat
   \/ (Nat.max (length theta_inter_neg) (length theta_inter_pos) <= m')%nat
   \/ (Nat.max (length r_inter_neg) (length r_inter_pos) <= j')%nat) ->
  inner_loop z k phi_inter theta_inter_neg theta_inter_pos
    r_inter_neg r_inter_pos ppm !! (k', j', m', i')
  = z !! (k', j', m', i').
Proof.
  intros H. unfold inner_loop, foldi. apply foldi_from_other.
  intros n a z0 Hn. destruct (skipped a); [reflexivity|].
  rewrite !theta_loop_other; [reflexivity | |];
    (destruct (decide (i' = n)) as [-> | ?]; [|tauto]);
    destruct H as [H | [H | [H | H]]]; auto; try lia;
    right; right; left; lia.
Qed.


Lemma deposit_at z k j m i r theta phi ppm :
  deposit z k j m i r theta phi ppm !! (k, j, m, i)
  = cell_add
      (if py_max3 (fst r) (fst theta) (fst phi)
          <=? py_min3 (snd r) (snd theta) (snd phi)
       then Some ((py_min3 (snd r) (snd theta) (snd phi)
                   - py_max3 (fst r) (fst theta) (fst phi)) * ppm)
       else None)
      (z !! (k, j, m, i)).
Proof.
  unfold deposit, cell_add. cbv zeta. destruct (_ <=? _); [|reflexivity].
  unfold sparse_add, sparse_get. now rewrite lookup_insert_eq.
Qed.

(** A loop with index whose body writes the cell only in the turn [crd],
    and there as a function of what the cell held. *)
Lemma foldi_from_at {A : Type} (f : nat -> A -> Sparse -> Sparse)
    (idx : nat * nat * nat * nat) (crd : nat)
    (g : A -> option float -> option float) :
  (forall n a z, n <> crd -> f n a z !! idx = z !! idx) ->
  (forall a z, f crd a z !! idx = g a (z !! idx)) ->
  forall (l : list A) (start : nat) (z : Sparse),
  (start <= crd)%nat ->
  foldi_from f start l z !! idx
  = match l !! (crd - start)%nat with
    | Some a => g a (z !! idx)
    | None => z !! idx
    end.
Proof.
  intros Hne Heq. induction l as [|a l IH]; intros start z Hs; simpl;
    [reflexivity|].
  destruct (decide (start = crd)) as [-> | Hlt].
  - rewrite Nat.sub_diag. simpl. rewrite foldi_from_other; [apply Heq|].
    intros n a' z' Hn. apply Hne. lia.
  - rewrite IH by lia.
    replace (crd - start)%nat with (S (crd - S start)) by lia. simpl.
    now rewrite Hne.
Qed.

Lemma overlap_count_skipped_phi r theta phi ppm :
  skipped phi = true -> overlap_count r theta phi ppm = None.
Proof. intros H. unfold overlap_count. now rewrite H. Qed.

Lemma overlap_count_skipped_theta r theta phi ppm :
  skipped theta = true -> overlap_count r theta phi ppm = None.
Proof. intros H. unfold overlap_count. now rewrite H, orb_true_r. Qed.

Lemma r_loop_at k m i theta phi r_inter ppm z j :
  skipped phi = false -> skipped theta = false ->
  r_loop k m i theta phi r_inter ppm z !! (k, j, m, i)
  = cell_add
      (match r_inter !! j with
       | Some r => overlap_count r theta phi ppm
       | None => None
       end)
      (z !! (k, j, m, i)).
Proof.
  intros Hp Ht. unfold r_loop, foldi.
  rewrite (foldi_from_at _ (k, j, m, i) j
             (fun r v => cell_add (overlap_count r theta phi ppm) v)).
  - rewrite Nat.sub_0_r. now destruct (r_inter !! j).
  - intros n a z0 Hn. destruct (skipped a); [reflexivity|].
    apply deposit_other. congruence.
  - intros a z0. unfold overlap_count. rewrite Hp, Ht. simpl.
    destruct (skipped a); [reflexivity|]. apply deposit_at.
  - lia.
Qed.

Lemma theta_loop_at k i phi theta_inter r_neg r_pos ppm z j m :
  skipped phi = false ->
  theta_loop k i phi theta_inter r_neg r_pos ppm z !! (k, j, m, i)
  = cell_add (pair_count theta_inter r_pos m j phi ppm)
      (cell_add (pair_count theta_inter r_neg m j phi ppm)
         (z !! (k, j, m, i))).
Proof.
  intros Hp. unfold theta_loop, foldi.
  rewrite (foldi_from_at _ (k, j, m, i) m
             (fun theta v =>
                cell_add (match r_pos !! j with
                          | Some r => overlap_count r theta phi ppm
                          | None => None
                          end)
                  (cell_add (match r_neg !! j with
                             | Some r => overlap_count r theta phi ppm
                             | None => None
                             end) v))).
  - rewrite Nat.sub_0_r. unfold pair_count.
    destruct (theta_inter !! m); [reflexivity|]. reflexivity.
  - intros n a z0 Hn. destruct (skipped a); [reflexivity|].
    rewrite !r_loop_other; [reflexivity | |]; right; left; congruence.
  - intros a z0. destruct (skipped a) eqn:Ha.
    + destruct (r_pos !! j), (r_neg !! j);
        rewrite ?(overlap_count_skipped_theta _ a phi ppm Ha); reflexivity.
    + now rewrite !r_loop_at.
  - lia.
Qed.

Lemma inner_loop_at (z : Sparse) (k : nat)
    (phi_inter theta_inter_neg theta_inter_pos r_inter_neg r_inter_pos :
       list (float * float))
    (ppm : float) (j m i : nat) :
  inner_loop z k phi_inter theta_inter_neg theta_inter_pos
    r_inter_neg r_inter_pos ppm !! (k, j, m, i)
  = match phi_inter !! i with
    | None => z !! (k, j, m, i)
    | Some phi =>
        cell_add (pair_count theta_inter_pos r_inter_pos m j phi ppm)
          (cell_add (pair_count theta_inter_pos r_inter_neg m j phi ppm)
             (cell_add (pair_count theta_inter_neg r_inter_pos m j phi ppm)
                (cell_add (pair_count theta_inter_neg r_inter_neg m j phi ppm)
                   (z !! (k, j, m, i)))))
    end.
Proof.
  unfold inner_loop, foldi.
  rewrite (foldi_from_at _ (k, j, m, i) i
             (fun phi v =>
                cell_add (pair_count theta_inter_pos r_inter_pos m j phi ppm)
                  (cell_add (pair_count theta_inter_pos r_inter_neg m j phi ppm)
                     (cell_add (pair_count theta_inter_neg r_inter_pos m j phi ppm)
                        (cell_add
                           (pair_count theta_inter_neg r_inter_neg m j phi ppm)
                           v))))).
  - rewrite Nat.sub_0_r. reflexivity.
  - intros n a z0 Hn. destruct (skipped a); [reflexivity|].
    rewrite !theta_loop_other; [reflexivity | |]; right; left; congruence.
  - intros a z0. destruct (skipped a) eqn:Ha.
    + unfold pair_count.
      repeat match goal with
      | |- context [match ?l !! ?n with Some _ => _ | None => _ end] =>
          destruct (l !! n)
      end; rewrite ?(overlap_count_skipped_phi _ _ a ppm Ha); reflexivity.
    + now rewrite !theta_loop_at.
  - lia.
Qed.

(** C2 (as amended): for three intervals in the same rho coordinate whose
    ends are numbers, with [A] the largest lower end and [B] the smallest
    upper end, [A <= B] holds exactly when the intervals share a point.
    [inner_loop] applies the rule to every combination of a phi interval
    [i], a theta interval [m] and an r interval [j], for the two branch
    arrays of theta and of r: the cell [(k, j, m, i)] receives, one after
    the other, the count [(B - A) * photons_per_meter] of each of the
    four combinations for which [A <= B] and none of the three intervals
    has both ends negative, and nothing else; the cells of the other time
    bins are left as they are.  In particular, when only one combination
    exists for the cell, [A <= B] and no interval has both ends negative,
    the cell is raised by exactly [(B - A) * photons_per_meter]. *)
Theorem inner_loop_triple_intersection (z : Sparse) (k : nat)
    (phi_inter theta_inter_neg theta_inter_pos r_inter_neg r_inter_pos :
       list (float * float))
    (ppm : float) :
  (forall r theta phi : float * float,
     is_num (fst r) -> is_num (snd r) ->
     is_num (fst theta) -> is_num (snd theta) ->
     is_num (fst phi) -> is_num (snd phi) ->
     fle (py_max3 (fst r) (fst theta) (fst phi))
         (py_min3 (snd r) (snd theta) (snd phi))
     <-> exists x, common_point r theta phi x)
  /\ (forall j m i : nat,
        inner_loop z k phi_inter theta_inter_neg theta_inter_pos
          r_inter_neg r_inter_pos ppm !! (k, j, m, i)
        = match phi_inter !! i with
          | None => z !! (k, j, m, i)
          | Some phi =>
              cell_add (pair_count theta_inter_pos r_inter_pos m j phi ppm)
                (cell_add (pair_count theta_inter_pos r_inter_neg m j phi ppm)
                   (cell_add (pair_count theta_inter_neg r_inter_pos m j phi ppm)
                      (cell_add
                         (pair_count theta_inter_neg r_inter_neg m j phi ppm)
                         (z !! (k, j, m, i)))))
          end)
  /\ (forall k' j m i : nat,
        k' <> k ->
        inner_loop z k phi_inter theta_inter_neg theta_inter_pos
          r_inter_neg r_inter_pos ppm !! (k', j, m, i)
        = z !! (k', j, m, i))
  /\ (forall (r theta phi : float * float) (j m i : nat),
        phi_inter !! i = Some phi ->
        theta_inter_neg !! m = Some theta -> theta_inter_pos !! m = None ->
        r_inter_neg !! j = Some r -> r_inter_pos !! j = None ->
        skipped r = false -> skipped theta = false -> skipped phi = false ->
        let A := py_max3 (fst r) (fst theta) (fst phi) in
        let B := py_min3 (snd r) (snd theta) (snd phi) in
        fle A B ->
        inner_loop z k phi_inter theta_inter_neg theta_inter_pos
          r_inter_neg r_inter_pos ppm !! (k, j, m, i)
        = Some (sparse_get 0 z (k, j, m, i) + (B - A) * ppm)).
Proof.
  split; [intros r theta phi; apply max_min_rule|].
  split; [intros j m i; apply inner_loop_at|].
  split; [intros k' j m i Hk; apply inner_loop_other; now left|].
  intros r theta phi j m i Hphi Htn Htp Hrn Hrp Sr St Sp A B HAB.
  rewrite inner_loop_at, Hphi. unfold pair_count.
  rewrite Htn, Htp, Hrn, Hrp. unfold overlap_count.
  rewrite Sr, St, Sp. cbv zeta. fold A B.
  unfold fle in HAB. rewrite HAB. reflexivity.
Qed.

Lemma inner_loop_triple_intersection_witness :
  let r := (0, 2) in let theta := (1, 3) in let phi := (0.5, 2.5) in
  inner_loop ∅ 3 [(-1, -1); phi] [(4, 5); theta] [] [(4, 5); (4, 5); r] [] 10
    !! (3, 2, 1, 1)%nat
  = Some (0 + (2 - 1) * 10).
Proof.
  intros r theta phi.
  exact (proj2 (proj2 (proj2
           (inner_loop_triple_intersection ∅ 3
              [(-1, -1); phi] [(4, 5); theta] [] [(4, 5); (4, 5); r] [] 10)))
           r theta phi 2%nat 1%nat 1%nat
           eq_refl eq_refl eq_refl eq_refl eq_refl
           eq_refl eq_refl eq_refl eq_refl).
Defined.

(** C2 as stated fails: three copies of the interval [[-3, -1]] share
    every point of it, [A = -3 <= B = -1], and yet nothing is deposited. *)
Lemma negative_intervals_deposit_nothing :
  let iv := (-3, -1) in
  fle (py_max3 (fst iv) (fst iv) (fst iv)) (py_min3 (snd iv) (snd iv) (snd iv))
  /\ common_point iv iv iv (-2)
  /\ inner_loop ∅ 0 [iv] [iv] [] [iv] [] 1 = ∅
  /\ sparse_add ∅ (0, 0, 0, 0)%nat
       ((py_min3 (snd iv) (snd iv) (snd iv)
         - py_max3 (fst iv) (fst iv) (fst iv)) * 1) !! (0, 0, 0, 0)%nat
     = Some 2.
Proof.
  intros iv. split; [reflexivity|]. split; [repeat split|].
  split; [rewrite inner_loop_single; reflexivity|].
  unfold sparse_add. rewrite lookup_insert_eq. reflexivity.
Qed.

(** The ends have to be numbers for the rule: with a NaN lower end
    Python's [max] passes over it, [A = 0 <= B = 1], and no point is
    shared, every comparison with the NaN end being false. *)
Lemma nan_end_breaks_the_rule :
  let r := (0, 1) in let theta := (nan, 5) in let phi := (0, 1) in
  fle (py_max3 (fst r) (fst theta) (fst phi))
      (py_min3 (snd r) (snd theta) (snd phi))
  /\ ~ exists x, common_point r theta phi x.
Proof.
  intros r theta phi. split; [reflexivity|].
  intros (x & _ & _ & H & _). destruct (leb_num _ _ H) as [Hn _].
  discriminate Hn.
Qed.

(** *** get_bin *)

Lemma bins_lookup (edges : list float) (k : nat) (a b : float) :
  bins edges !! k = Some (a, b)
  <-> edges !! k = Some a /\ edges !! S k = Some b.
Proof.
  revert k. induction edges as [|e [|e' rest] IH]; intros k.
  - simpl. split; [discriminate | intros [? _]; discriminate].
  - simpl. split; [discriminate|]. intros [_ H]. destruct k; discriminate.
  - change (bins (e :: e' :: rest)) with ((e, e') :: bins (e' :: rest)).
    destruct k as [|k].
    + simpl. split; [intros [= -> ->]; auto | intros [[= ->] [= ->]]; auto].
    + change (((e, e') :: bins (e' :: rest)) !! S k)
        with (bins (e' :: rest) !! k).
      rewrite IH. reflexivity.
Qed.

Lemma bins_length (edges : list float) :
  length (bins edges) = (length edges - 1)%nat.
Proof.
  induction edges as [|e [|e' rest] IH]; try reflexivity.
  change (bins (e :: e' :: rest)) with ((e, e') :: bins (e' :: rest)).
  simpl in *. rewrite IH. lia.
Qed.

Lemma scan_found val i l k : foldi_from (scan val) i l (Some k) = Some k.
Proof. revert i. induction l; intros i; simpl; auto. Qed.

(** The scan returns the first bin that holds the value. *)
Lemma scan_first val i l k :
  foldi_from (scan val) i l None = Some k
  <-> exists j b, k = (i + j)%nat /\ l !! j = Some b /\ in_bin val b = true
      /\ forall j' b', (j' < j)%nat -> l !! j' = Some b' -> in_bin val b' = false.
Proof.
  revert i. induction l as [|c l IH]; intros i.
  - simpl. split; [discriminate | intros (j & b & _ & H & _); discriminate].
  - cbn [foldi_from].
    change (scan val i c None) with (if in_bin val c then Some i else None).
    destruct (in_bin val c) eqn:E.
    + rewrite scan_found. split.
      * intros [= <-]. exists 0%nat, c.
        split; [lia|]. split; [reflexivity|]. split; [exact E|].
        intros j' b' Hj. lia.
      * intros (j & b & -> & Hb & Hin & Hfirst).
        destruct j as [|j]; [f_equal; lia|].
        specialize (Hfirst 0%nat c ltac:(lia) eq_refl). congruence.
    + rewrite IH. split.
      * intros (j & b & -> & Hb & Hin & Hfirst).
        exists (S j), b.
        split; [lia|]. split; [exact Hb|]. split; [exact Hin|].
        intros [|j'] b' Hj Hb'.
        -- simpl in Hb'. congruence.
        -- simpl in Hb'. apply (Hfirst j' b'); [lia | assumption].
      * intros (j & b & -> & Hb & Hin & Hfirst).
        destruct j as [|j]; [simpl in Hb; congruence|].
        exists j, b.
        split; [lia|]. split; [exact Hb|]. split; [exact Hin|].
        intros j' b' Hj Hb'. apply (Hfirst (S j') b'); [lia | assumption].
Qed.

Lemma get_bin_first val edges k :
  get_bin val edges = Some k
  <-> exists b, bins edges !! k = Some b /\ in_bin val b = true
      /\ forall j' b', (j' < k)%nat -> bins edges !! j' = Some b' ->
                        in_bin val b' = false.
Proof.
  unfold get_bin, foldi. change (foldi_from _ 0 (bins edges) None)
    with (foldi_from (scan val) 0 (bins edges) None).
  rewrite scan_first. split.
  - intros (j & b & -> & H). exists b. exact H.
  - intros (b & H). exists k, b. split; [reflexivity | exact H].
Qed.

Lemma get_bin_none val edges :
  (forall j b, bins edges !! j = Some b -> in_bin val b = false) ->
  get_bin val edges = None.
Proof.
  intros H. destruct (get_bin val edges) as [k|] eqn:E; [|reflexivity].
  apply get_bin_first in E. destruct E as (b & Hb & Hin & _).
  rewrite (H _ _ Hb) in Hin. discriminate.
Qed.

Lemma increasing_le edges i j a b :
  strictly_increasing edges -> (i <= j)%nat -> (2 <= length edges)%nat ->
  edges !! i = Some a -> edges !! j = Some b -> fle a b.
Proof.
  intros Hinc Hij Hlen Ha. revert b. induction Hij as [|j Hij IH]; intros b Hb.
  - assert (a = b) as <- by congruence.
    apply leb_refl.
    destruct i as [|i].
    + destruct (edges !! 1%nat) as [c|] eqn:Ec.
      * exact (proj1 (ltb_num _ _ (Hinc 0%nat a c Ha Ec))).
      * apply lookup_ge_None in Ec. lia.
    + destruct (edges !! i) as [c|] eqn:Ec.
      * exact (proj2 (ltb_num _ _ (Hinc i c a Ec Ha))).
      * apply lookup_ge_None in Ec. apply lookup_lt_Some in Ha. lia.
  - destruct (edges !! j) as [c|] eqn:Ec.
    + apply leb_trans with c; [now apply IH|].
      apply ltb_leb. exact (Hinc j c b Ec Hb).
    + apply lookup_ge_None in Ec. apply lookup_lt_Some in Hb. lia.
Qed.

Lemma in_bin_spec val b :
  in_bin val b = true <-> fle (fst b) val /\ flt val (snd b).
Proof. unfold in_bin, fle, flt. rewrite andb_true_iff. reflexivity. Qed.

(** On increasing edges at most one bin holds a value. *)
Lemma increasing_first edges val k b :
  strictly_increasing edges ->
  bins edges !! k = Some b -> in_bin val b = true ->
  forall j' b', (j' < k)%nat -> bins edges !! j' = Some b' ->
                in_bin val b' = false.
Proof.
  intros Hinc Hb Hin j' [a' c'] Hj Hb'.
  destruct b as [a c]. apply bins_lookup in Hb as [Ha Hc].
  apply bins_lookup in Hb' as [Ha' Hc'].
  apply in_bin_spec in Hin as [Hle Hlt]. simpl in *.
  assert (2 <= length edges)%nat as Hlen
    by (apply lookup_lt_Some in Hc; lia).
  assert (fle c' a) as H1 by (eapply (increasing_le edges (S j') k); eauto; lia).
  unfold in_bin. simpl.
  rewrite (leb_not_ltb c' val (leb_trans _ _ _ H1 Hle)).
  apply andb_false_r.
Qed.

(** On decreasing edges no bin holds a value. *)
Lemma decreasing_empty edges val j b :
  strictly_decreasing edges -> bins edges !! j = Some b -> in_bin val b = false.
Proof.
  intros Hdec Hb. destruct b as [a c]. apply bins_lookup in Hb as [Ha Hc].
  destruct (in_bin val (a, c)) eqn:E; [|reflexivity].
  apply in_bin_spec in E as [Hle Hlt]. simpl in *.
  pose proof (Hdec j a c Ha Hc) as Hca.
  pose proof (ltb_leb_trans _ _ _ Hca Hle) as H1.
  pose proof (ltb_trans _ _ _ H1 Hlt) as H2.
  pose proof (ltb_not_leb _ _ H2) as H3.
  rewrite (leb_refl c (proj1 (ltb_num _ _ H2))) in H3. discriminate.
Qed.

(** C7: on strictly monotonic edges [get_bin] returns [k] exactly when
    [edges[k] <= val < edges[k+1]], and [None] when the value is below
    the first edge or at or above the last one; when one of the four
    lookups of the cascade returns [None], the cascade is dropped and the
    accumulators are left as they are. *)
Theorem get_bin_spec `{NP : Numpy} `{RC : RetroConsts}
    (edges : list float) (val : float) :
  strictly_monotonic edges ->
  (forall k, get_bin val edges = Some k
             <-> exists a b, edges !! k = Some a /\ edges !! S k = Some b
                             /\ fle a val /\ flt val b)
  /\ ((exists a, head edges = Some a /\ flt val a)
       \/ (exists b, last edges = Some b /\ fle b val) ->
      get_bin val edges = None)
  /\ (forall (self : Hypo) (trk : Track) (be : BinningCoords (list float))
             (m : Matrices),
        get_bin (t0 trk) (bc_t be) = None
        \/ get_bin (cr (x0 trk) (y0 trk) (z0 trk)) (bc_r be) = None
        \/ get_bin (ctheta (x0 trk) (y0 trk) (z0 trk)) (bc_theta be) = None
        \/ get_bin (cphi (x0 trk) (y0 trk) (z0 trk)) (bc_phi be) = None ->
        add_cascade self trk be m = Ok m).
Proof.
  intros Hmono. split; [|split].
  - intros k. rewrite get_bin_first. split.
    + intros ([a b] & Hb & Hin & _). exists a, b.
      apply bins_lookup in Hb as [Ha Hc]. apply in_bin_spec in Hin.
      tauto.
    + intros (a & b & Ha & Hb & Hle & Hlt). exists (a, b).
      assert (bins edges !! k = Some (a, b)) as Hbin
        by (apply bins_lookup; auto).
      assert (in_bin val (a, b) = true) as Hin
        by (apply in_bin_spec; auto).
      split; [exact Hbin|]. split; [exact Hin|].
      destruct Hmono as [Hinc | Hdec].
      * eapply increasing_first; eauto.
      * rewrite (decreasing_empty edges val k (a, b) Hdec Hbin) in Hin.
        discriminate.
  - intros Hout. apply get_bin_none. intros j [a c] Hb.
    destruct Hmono as [Hinc | Hdec];
      [|eapply decreasing_empty; eauto].
    apply bins_lookup in Hb as [Ha Hc].
    assert (2 <= length edges)%nat as Hlen
      by (apply lookup_lt_Some in Hc; lia).
    unfold in_bin; simpl.
    destruct Hout as [(e & He & Hlt) | (e & He & Hle)].
    + rewrite head_lookup in He.
      assert (fle e a) as H1
        by (eapply (increasing_le edges 0 j); eauto; lia).
      rewrite (ltb_not_leb _ _ (ltb_leb_trans _ _ _ Hlt H1)). reflexivity.
    + rewrite last_lookup in He.
      assert (fle c e) as H1.
      { eapply (increasing_le edges (S j) (pred (length edges))); eauto.
        apply lookup_lt_Some in Hc. lia. }
      rewrite (leb_not_ltb _ _ (leb_trans _ _ _ H1 Hle)).
      apply andb_false_r.
  - intros self trk be m H. unfold add_cascade.
    destruct (get_bin (t0 trk) (bc_t be)); [|reflexivity].
    destruct (get_bin _ (bc_r be)); [|reflexivity].
    destruct (get_bin _ (bc_theta be)); [|reflexivity].
    destruct (get_bin _ (bc_phi be)); [|reflexivity].
    destruct H as [H | [H | [H | H]]]; discriminate.
Qed.

Lemma get_bin_spec_witness :
  get_bin 1.5 [0; 1; 2] = Some 1%nat /\ get_bin 2 [0; 1; 2] = None.
Proof.
  assert (strictly_monotonic [0; 1; 2]) as Hmono.
  { left. intros [|[|[|i]]] a b; simpl; intros [= <-] [= <-]; reflexivity. }
  split.
  - apply (proj1 (@get_bin_spec np_on_axes retro_consts [0; 1; 2] 1.5 Hmono) 1%nat).
    exists 1, 2. repeat split; reflexivity.
  - apply (proj1 (proj2 (@get_bin_spec np_on_axes retro_consts [0; 1; 2] 2 Hmono))).
    right. exists 2. split; reflexivity.
Defined.

(** *** The axis correlators *)

Lemma sorted2_well_formed a b : well_formed (sorted2 a b).
Proof.
  unfold well_formed, sorted2, ordered. destruct (b <? a) eqn:E; simpl.
  - intros _ _. left. now apply ltb_leb.
  - intros Ha Hb. left. now apply ltb_false_leb.
Qed.

Lemma sentinel_well_formed : well_formed (-1, -1).
Proof. intros _ _. right. reflexivity. Qed.

Ltac split_ifs :=
  repeat match goal with
  | |- context [if ?c then _ else _] => destruct c
  | |- context [match ?o with Some _ => _ | None => _ end] => destruct o
  end.

Create HintDb correlate.
#[local] Hint Resolve sorted2_well_formed sentinel_well_formed : correlate.

(** C3 (as amended): every call of a correlator returns one interval per
    bin, whatever the edges and the extents are; an interval of
    [correlate_r] whose ends are numbers satisfies
    [interval[0] <= interval[1]] or has both entries negative, and so
    does an interval of [correlate_theta] and of [correlate_phi] unless
    it is the [rho_extent] of the caller handed back as it came; hence,
    when that [rho_extent] is ordered or the sentinel, every returned
    interval whose ends are numbers is ordered or the sentinel. *)
Theorem correlators_intervals `{NP : Numpy} `{RC : RetroConsts}
    (trk : Track) (edges : list float)
    (t_theta : option (float * float)) (t : float * float) (pos : bool)
    (rho_extent : float * float) :
  length (correlate_theta trk edges t_theta rho_extent) = (length edges - 1)%nat
  /\ length (correlate_phi trk edges t rho_extent) = (length edges - 1)%nat
  /\ length (correlate_r trk edges t pos) = (length edges - 1)%nat
  /\ Forall well_formed (correlate_r trk edges t pos)
  /\ Forall (fun iv => iv = rho_extent \/ well_formed iv)
       (correlate_theta trk edges t_theta rho_extent)
  /\ Forall (fun iv => iv = rho_extent \/ well_formed iv)
       (correlate_phi trk edges t rho_extent)
  /\ (ordered rho_extent \/ sentinel rho_extent ->
      Forall well_formed (correlate_theta trk edges t_theta rho_extent)
      /\ Forall well_formed (correlate_phi trk edges t rho_extent)).
Proof.
  assert (Forall well_formed (correlate_r trk edges t pos)) as Hr.
  { unfold correlate_r. apply Forall_forall. intros iv Hin.
    apply list_elem_of_In, in_map_iff in Hin as (b & <- & _).
    split_ifs; auto with correlate. }
  assert (Forall (fun iv => iv = rho_extent \/ well_formed iv)
            (correlate_theta trk edges t_theta rho_extent)) as Ht.
  { unfold correlate_theta. apply Forall_forall. intros iv Hin.
    apply list_elem_of_In, in_map_iff in Hin as (b & <- & _).
    split_ifs; auto with correlate. }
  assert (Forall (fun iv => iv = rho_extent \/ well_formed iv)
            (correlate_phi trk edges t rho_extent)) as Hp.
  { unfold correlate_phi. apply Forall_forall. intros iv Hin.
    apply list_elem_of_In, in_map_iff in Hin as (b & <- & _).
    split_ifs; auto with correlate. }
  split; [unfold correlate_theta; now rewrite length_map, bins_length|].
  split; [unfold correlate_phi; now rewrite length_map, bins_length|].
  split; [unfold correlate_r; now rewrite length_map, bins_length|].
  split; [exact Hr|]. split; [exact Ht|]. split; [exact Hp|].
  intros Hrho.
  assert (well_formed rho_extent) as Hwf by (intros _ _; exact Hrho).
  split; (eapply Forall_impl; [eassumption|]); intros iv [-> | H]; assumption.
Qed.

Lemma correlators_intervals_witness :
  let trk := Track_init (NP := np_on_axes) (RC := retro_consts)
               (mkTrackParams 0 0 0 0 0 0 1) (mkTimeSpaceCoord 0 0 0 0) in
  correlate_phi (NP := np_on_axes) (RC := retro_consts) trk [0; 1; 2]
    (0.5, 0.5) (3, 5) = [(3, 5); (-1, -1)]
  /\ Forall well_formed
       (correlate_theta (NP := np_on_axes) (RC := retro_consts) trk
          [0; 1; 2] (Some (0.5, 0.5)) (3, 5))
  /\ Forall well_formed
       (correlate_phi (NP := np_on_axes) (RC := retro_consts) trk [0; 1; 2]
          (0.5, 0.5) (3, 5)).
Proof.
  intros trk. split; [vm_compute; reflexivity|].
  exact (proj2 (proj2 (proj2 (proj2 (proj2 (proj2
    (@correlators_intervals np_on_axes retro_consts trk [0; 1; 2]
       (Some (0.5, 0.5)) (0.5, 0.5) false (3, 5))))))) (or_introl eq_refl)).
Defined.

(** C3 as stated fails: on a constant azimuth the bin that holds it gets
    the caller's [rho_extent] as it is, here [(5, 3)], which is neither
    ordered nor the sentinel. *)
Lemma correlate_phi_passes_extent_through :
  let trk := Track_init (NP := np_on_axes) (RC := retro_consts)
               (mkTrackParams 0 0 0 0 0 0 1) (mkTimeSpaceCoord 0 0 0 0) in
  correlate_phi (NP := np_on_axes) (RC := retro_consts) trk [0; 1] (0.5, 0.5) (5, 3) = [(5, 3)]
  /\ (5 <=? 3) = false /\ skipped (5, 3) = false.
Proof. vm_compute. auto. Qed.

(** The same failure with an ordered extent: a track along x that starts
    at [(-1, 0, 0)] passes over the origin of the azimuth; the inverse map
    divides zero by zero at [phi = 0], and the interval of the bin
    [[0, pi]] comes back as [(NaN, 1)]. *)
Lemma correlate_phi_nan_interval :
  let trk := Track_init (NP := np_on_axes) (RC := retro_consts)
               (mkTrackParams 0 (-1) 0 0 (np_pi / 2) 0 1)
               (mkTimeSpaceCoord 0 0 0 0) in
  exists lo, correlate_phi (NP := np_on_axes) (RC := retro_consts) trk [0; np_pi] (0, np_pi) (0, 1)
             = [(lo, 1)]
  /\ is_nan lo = true /\ (lo <=? 1) = false /\ skipped (lo, 1) = false.
Proof. eexists. vm_compute. auto. Qed.

(** *** Conservation of the photon count *)

(** The spec's scenario, a track along the polar axis in a binning of one
    cell that holds all of it: with the track starting at the time of the
    hit the cell receives [track_length * photons_per_meter]. *)
Lemma conservation_at_time_zero :
  accumulated (axis_run 0) = Some (track_photons (axis_hypo 0))
  /\ track_photons (axis_hypo 0) = 2785.7436992045459
  /\ populated_cells (axis_run 0) = Some 1%nat.
Proof. repeat split; vm_compute; reflexivity. Qed.

(** What goes wrong with the offset: the theta and phi intervals are the
    whole rho extent [[0, 1.136]], as they should be; the radial interval
    is computed on the outgoing branch and is [[2.86, 4]], where the
    incoming branch gives [[0, 1.136]]. *)
Lemma time_offset_radial_branch :
  let trk := set_origin (track (axis_hypo (-4))) sensor_at_origin in
  let rho_extent := (rho_of_t (RC := retro_consts) trk (t0 trk),
                     rho_of_t (RC := retro_consts) trk (t0 trk + dt trk)) in
  let r_extent := sorted2 (cr 0 0 (-2)) (cr 0 0 (-0.86363636363636354)) in
  rho_extent = (0, 1.1363636363636365)
  /\ correlate_theta (NP := np_on_axes) (RC := retro_consts) trk [0; np_pi]
       (Some (ctheta (NP := np_on_axes) 0 0 (-2),
              ctheta (NP := np_on_axes) 0 0 (-0.86363636363636354)))
       rho_extent = [rho_extent]
  /\ correlate_phi (NP := np_on_axes) (RC := retro_consts) trk [0; 2 * np_pi]
       (0, 0) rho_extent = [rho_extent]
  /\ correlate_r trk [0; 4] r_extent false = [(2.8636363636363633, 4)]
  /\ correlate_r trk [0; 4] r_extent true = [rho_extent].
Proof. repeat split; vm_compute; reflexivity. Qed.

(** The outcome does not hinge on the value of the speed constant: with
    the speed of light in ice the count is conserved at offset 0 and lost
    at offset -4 ns all the same. *)
Lemma time_offset_in_ice :
  accumulated (axis_run_in_ice 0) = Some 2785.7436992045459
  /\ accumulated (axis_run_in_ice (-4)) = Some 0
  /\ populated_cells (axis_run_in_ice (-4)) = Some 0%nat.
Proof. repeat split; vm_compute; reflexivity. Qed.

(** C1 fails on the code: the same track and binning, with the track
    starting 4 ns before the hit.  The one time bin holds the whole
    transit, the track runs from 2 m to 0.86 m below the sensor, and no
    cell is populated: the accumulated count is 0 where
    [track_length * photons_per_meter] is 2785.74.  [tb], the time of
    closest approach, is [(t0 - p.d) / c] in the code; it comes out before
    the start of the track, although the track approaches the sensor all
    along, and the radial intervals are taken from the outgoing branch. *)
Theorem conservation_lost_with_time_offset :
  let trk := set_origin (track (axis_hypo (-4))) sensor_at_origin in
  extent trk (-5) 20 = Some (t0 trk, t0 trk + dt trk)
  /\ point (RC := retro_consts) trk (t0 trk) = Some (0, 0, -2)
  /\ point (RC := retro_consts) trk (t0 trk + dt trk)
      = Some (0, 0, -0.86363636363636354)
  /\ cascade_photons (axis_hypo (-4)) = 0
  /\ track_length trk * photons_per_meter (axis_hypo (-4)) = 2785.7436992045459
  /\ (tb (RC := retro_consts) trk <? t0 trk) = true
  /\ populated_cells (axis_run (-4)) = Some 0%nat
  /\ accumulated (axis_run (-4)) = Some 0.
Proof. repeat split; vm_compute; reflexivity. Qed.

End HypoFastSpec.

(** ** Proofs for tables/pexp_5d.py *)

Module Pexp5dSpec.
Import PyFloat Py PyFloatFacts Pexp5d.
Local Open Scope float_scope.
Set Warnings "-inexact-float".

(** *** Causality *)

Lemma hit_step_skips `{L : Libs} (cl : Closure) (source : Source)
    (r_bin_idx costheta_bin_idx : Z) (lc : Locals) (table : Table)
    (table_norm : ndarray float) (i : nat) (hit : float * float)
    (acc : list float) :
  skips cl source hit ->
  hit_step cl source r_bin_idx costheta_bin_idx lc table table_norm i hit acc
  = Ok acc.
Proof.
  intros H. unfold hit_step.
  destruct (s_t source <=? fst hit) eqn:E; [|reflexivity]. simpl.
  destruct H as [H | [H | H]].
  - rewrite (ltb_not_leb _ _ H) in E. discriminate.
  - destruct (leb_num _ _ E) as [_ Hn]. unfold is_num in Hn. congruence.
  - unfold geb. unfold fle in H. rewrite H. reflexivity.
Qed.

(** A turn of the hit loop writes no entry but its own. *)
Lemma hit_step_other `{L : Libs} (cl : Closure) (source : Source)
    (r_bin_idx costheta_bin_idx : Z) (lc : Locals) (table : Table)
    (table_norm : ndarray float) (i : nat) (hit : float * float)
    (acc acc' : list float) (h : nat) :
  hit_step cl source r_bin_idx costheta_bin_idx lc table table_norm i hit acc
  = Ok acc' ->
  h <> i -> acc' !! h = acc !! h.
Proof.
  unfold hit_step. intros H Hne.
  destruct (negb _); [congruence|].
  destruct (geb _ _); [congruence|].
  repeat match type of H with
  | mbind _ ?m = Ok _ => destruct m; simpl in H; try discriminate
  end.
  injection H as <-. now rewrite list_lookup_insert_ne.
Qed.

Lemma hit_loop_skips `{L : Libs} (cl : Closure) (source : Source)
    (r_bin_idx costheta_bin_idx : Z) (lc : Locals) (table : Table)
    (table_norm : ndarray float) (hits : list (float * float)) :
  forall (i : nat) (acc acc' : list float) (h : nat),
  foldi_from_r
    (hit_step cl source r_bin_idx costheta_bin_idx lc table table_norm)
    i hits acc = Ok acc' ->
  ((h < i)%nat
   \/ exists hit, hits !! (h - i)%nat = Some hit /\ skips cl source hit) ->
  acc' !! h = acc !! h.
Proof.
  induction hits as [|hit0 hits IH]; intros i acc acc' h Hrun Hh.
  - simpl in Hrun. congruence.
  - simpl in Hrun.
    destruct (hit_step cl source r_bin_idx costheta_bin_idx lc table
                table_norm i hit0 acc) as [acc1|] eqn:E1; [|discriminate].
    destruct (decide (h = i)) as [-> | Hne].
    + destruct Hh as [Hlt | (hit & Hhit & Hskip)]; [lia|].
      rewrite Nat.sub_diag in Hhit. simpl in Hhit. injection Hhit as ->.
      rewrite (hit_step_skips cl source _ _ lc table table_norm i hit acc Hskip)
        in E1.
      injection E1 as <-.
      apply (IH (S i) acc acc' i Hrun). left. lia.
    + rewrite (IH (S i) acc1 acc' h Hrun).
      * eapply hit_step_other; eauto.
      * destruct Hh as [Hlt | (hit & Hhit & Hskip)]; [left; lia|].
        destruct (decide (h < i)%nat); [left; lia|]. right.
        exists hit. split; [|exact Hskip].
        replace (h - i)%nat with (S (h - S i)) in Hhit by lia.
        exact Hhit.
Qed.

(** C4: a source whose emission time is after the hit time (or whose hit
    time is NaN), or whose elapsed time [hit_time - source_t] is at least
    [t_max], leaves that hit's entry of the per-hit accumulator as it
    was. *)
Theorem causality `{L : Libs} (cl : Closure)
    (hits : list (float * float)) (dom_info : DomInfo)
    (table : Table) (table_norm t_indep_table t_indep_table_norm : ndarray float)
    (source : Source) (acc acc' : float * list float)
    (h : nat) (hit : float * float) :
  source_step cl hits dom_info table table_norm t_indep_table
    t_indep_table_norm source acc = Ok acc' ->
  hits !! h = Some hit ->
  skips cl source hit ->
  snd acc' !! h = snd acc !! h.
Proof.
  intros Hrun Hhit Hskip. unfold source_step in Hrun.
  destruct acc as [all_times hit_times].
  destruct (geb _ (rsquared_max cl)); [injection Hrun as <-; reflexivity|].
  repeat match type of Hrun with
  | mbind _ ?m = Ok _ =>
      let E := fresh "E" in destruct m eqn:E; simpl in Hrun; try discriminate
  end.
  injection Hrun as <-. simpl.
  match goal with
  | E : foldi_r _ _ _ = Ok _ |- _ =>
      unfold foldi_r in E; eapply hit_loop_skips; [exact E|]
  end.
  right. exists hit. rewrite Nat.sub_0_r. auto.
Qed.

Lemma causality_witness :
  let cl := {| tbl_is_raw := false; tbl_is_ckv := true;
               tbl_is_templ_compr := false; compute_t_indep_exp := true;
               num_phi_samples := 0; ckv_sigma_deg := 0;
               template_library := constant [] 0;
               rsquared_max := 100; inv_r_power := 1; n_r_bins := 2;
               table_dr_pwr := 5; n_costheta_bins := 2; table_dcostheta := 1;
               t_max := 20; n_t_bins := 2; table_dt := 10;
               n_costhetadir_bins := 2; table_dcosthetadir := 1;
               last_costhetadir_bin_idx := 1; n_deltaphidir_bins := 2;
               table_dphidir := PI / 2; last_deltaphidir_bin_idx := 1;
               random_delta_thetas := [] |} in
  let hits := [(5, 1); (-1, 1); (nan, 1); (30, 1)] in
  source_step (L := libs_on_axes) cl hits small_dom
    (Plain (constant [2; 2; 2; 2; 2]%nat 0.25)) (constant [2; 2]%nat 1)
    (constant [2; 2; 2; 2]%nat 0.5) (constant [2]%nat 1)
    (axis_source (-3)) (0, [0; 0; 0; 0])
  = Ok (0.5, [0.25; 0; 0; 0])
  /\ ([0.25; 0; 0; 0] : list float) !! 1%nat = ([0; 0; 0; 0] : list float) !! 1%nat.
Proof.
  intros cl hits.
  assert (source_step (L := libs_on_axes) cl hits small_dom
            (Plain (constant [2; 2; 2; 2; 2]%nat 0.25)) (constant [2; 2]%nat 1)
            (constant [2; 2; 2; 2]%nat 0.5) (constant [2]%nat 1)
            (axis_source (-3)) (0, [0; 0; 0; 0])
          = Ok (0.5, [0.25; 0; 0; 0])) as Hrun by (vm_compute; reflexivity).
  split; [exact Hrun|].
  exact (causality (L := libs_on_axes) cl hits small_dom _ _ _ _ _ _ _
           1%nat (-1, 1) Hrun eq_refl (or_introl eq_refl)).
Defined.

(** *** Hard failures *)

Lemma source_step_bad_norm `{L : Libs} (cl : Closure)
    (hits : list (float * float)) (dom_info : DomInfo)
    (table : Table) (table_norm t_indep_table t_indep_table_norm : ndarray float)
    (source : Source) (acc : float * list float) :
  compute_t_indep_exp cl = true ->
  bad_norm cl dom_info t_indep_table_norm source ->
  raises (source_step cl hits dom_info table table_norm t_indep_table
            t_indep_table_norm source acc).
Proof.
  intros Hc (Hcut & i & v & Hr & Hv & Hpos).
  unfold source_step. destruct acc as [all_times hit_times].
  rewrite Hcut, Hr. simpl.
  destruct (costheta_index cl _ _) as [ct|e]; simpl; [|now exists e].
  destruct (kind_branch cl source _ _ _ i ct t_indep_table) as [lc|e];
    simpl; [|now exists e].
  rewrite Hc, Hv. simpl. rewrite Hpos. simpl. now exists ValueError.
Qed.

Lemma source_loop_bad_norm `{L : Libs} (cl : Closure)
    (hits : list (float * float)) (dom_info : DomInfo)
    (table : Table) (table_norm t_indep_table t_indep_table_norm : ndarray float)
    (sources : list Source) :
  compute_t_indep_exp cl = true ->
  Exists (bad_norm cl dom_info t_indep_table_norm) sources ->
  forall acc,
  raises (source_loop cl hits dom_info table table_norm t_indep_table
            t_indep_table_norm sources acc).
Proof.
  intros Hc Hex. induction Hex as [source rest Hbad | source rest Hex IH];
    intros acc; simpl.
  - destruct (source_step_bad_norm cl hits dom_info table table_norm
                t_indep_table t_indep_table_norm source acc Hc Hbad) as [e ->].
    now exists e.
  - destruct (source_step cl hits dom_info table table_norm t_indep_table
                t_indep_table_norm source acc) as [acc'|e]; simpl.
    + apply IH.
    + now exists e.
Qed.

(** C5 (as amended): with [compute_t_indep_exp] enabled, an evaluation
    for a working sensor raises when a source that gets past the radial
    cut has a time-integrated normalization that is not strictly
    positive; and no evaluation returns an infinite log-likelihood sum:
    it raises instead. *)
Theorem hard_failures `{L : Libs} (cl : Closure)
    (sources : list Source) (hits : list (float * float))
    (dom_info : DomInfo) (time_window : float)
    (table : Table) (table_norm t_indep_table t_indep_table_norm : ndarray float) :
  (compute_t_indep_exp cl = true -> operational dom_info = true ->
   Exists (bad_norm cl dom_info t_indep_table_norm) sources ->
   raises (pexp_5d cl sources hits dom_info time_window table table_norm
             t_indep_table t_indep_table_norm))
  /\ (forall exp_p_at_all_times sum_log_at_hit_times,
       pexp_5d cl sources hits dom_info time_window table table_norm
         t_indep_table t_indep_table_norm
       = Ok (exp_p_at_all_times, sum_log_at_hit_times) ->
       np_isinf sum_log_at_hit_times = false)
  /\ (forall acc sum_log_at_hit_times,
       operational dom_info = true ->
       source_loop cl hits dom_info table table_norm t_indep_table
         t_indep_table_norm sources (0, repeat 0 (length hits)) = Ok acc ->
       sum_log dom_info hits (snd acc) 0 = Ok sum_log_at_hit_times ->
       np_isinf sum_log_at_hit_times = true ->
       pexp_5d cl sources hits dom_info time_window table table_norm
         t_indep_table t_indep_table_norm = Raise ValueError).
Proof.
  split; [|split].
  - intros Hc Hop Hex. unfold pexp_5d. rewrite Hop. simpl.
    destruct (source_loop_bad_norm cl hits dom_info table table_norm
                t_indep_table t_indep_table_norm sources Hc Hex
                (0, repeat 0 (length hits))) as [e ->].
    now exists e.
  - intros a s. unfold pexp_5d.
    destruct (negb (operational dom_info)); [intros [= <- <-]; reflexivity|].
    destruct (source_loop _ _ _ _ _ _ _ _ _) as [[a0 e0]|]; simpl;
      [|discriminate].
    destruct (sum_log _ _ _ _) as [s0|]; simpl; [|discriminate].
    destruct (np_isinf s0) eqn:E; [discriminate|].
    intros [= <- <-]. exact E.
  - intros [a0 e0] s Hop Hloop Hsum Hinf. unfold pexp_5d.
    rewrite Hop. simpl. rewrite Hloop. simpl in *. rewrite Hsum. simpl.
    rewrite Hinf. reflexivity.
Qed.

Lemma hard_failures_witness :
  exists cl, small_closure = Ok cl
  /\ raises (pexp_5d (L := libs_on_axes) cl [axis_source (-3)] [(5, 1)]
               small_dom 100
               (Plain (constant [2; 2; 2; 2; 2]%nat 0.25))
               (constant [2; 2]%nat 1) (constant [2; 2; 2; 2]%nat 0.5)
               (constant [2]%nat 0)).
Proof.
  assert (exists cl, small_closure = Ok cl) as [cl Hcl]
    by (eexists; vm_compute; reflexivity).
  exists cl. split; [exact Hcl|].
  apply (proj1 (hard_failures (L := libs_on_axes) cl [axis_source (-3)]
                  [(5, 1)] small_dom 100 _ _ _ (constant [2]%nat 0))).
  - vm_compute in Hcl. injection Hcl as <-. reflexivity.
  - reflexivity.
  - vm_compute in Hcl. injection Hcl as <-. apply Exists_cons_hd.
    split; [vm_compute; reflexivity|].
    exists 0%Z, 0. vm_compute. auto.
Defined.

(** C5 as stated fails: with a NaN entry in the normalization of the
    table the log-likelihood sum is NaN, which is not finite, and the
    evaluation returns it. *)
Lemma nan_sum_is_returned :
  exists all_times s,
    small_run [axis_source (-3)] [(5, 1)] 0.25 nan 0.5 1 = Ok (all_times, s)
    /\ is_nan s = true /\ is_finite s = false.
Proof. do 2 eexists. vm_compute. auto. Qed.

(** *** The direction indices of the Cherenkov table *)

Ltac step_binds H :=
  repeat match type of H with
  | mbind _ ?m = Ok _ =>
      let E := fresh "E" in destruct m eqn:E; simpl in H; [|discriminate]
  end.

Lemma zero_not_close_to_pi (x : float) :
  (x =? 0) = true -> np_isclose x PI = false.
Proof. intros H. destruct (eqb_zero x H) as [-> | ->]; reflexivity. Qed.

(** What the generated closure holds for the two direction axes. *)
Lemma generate_direction_bins `{L : Libs} (table : TableMeta)
    (kind : TableKind) (c u : bool) (nps : option Z) (sig : option float)
    (lib : ndarray float) (cl : Closure) :
  generate_pexp_5d_function table kind c u nps sig lib = Ok cl ->
  let n := (len (costhetadir_bin_edges table) - 1)%Z in
  let m := (len (deltaphidir_bin_edges table) - 1)%Z in
  (1 <= n)%Z
  /\ n_costhetadir_bins cl = n
  /\ table_dcosthetadir cl = 2 / float_of_Z n
  /\ last_costhetadir_bin_idx cl = (n - 1)%Z
  /\ (1 <= m)%Z
  /\ n_deltaphidir_bins cl = m
  /\ table_dphidir cl = PI / float_of_Z m
  /\ last_deltaphidir_bin_idx cl = (m - 1)%Z.
Proof.
  intros H n m. unfold generate_pexp_5d_function in H.
  step_binds H. injection H as <-. simpl.
  assert (n <> 0)%Z as Hn0.
  { match goal with
    | E : int_div 2 (len (costhetadir_bin_edges table) - 1) = Ok _ |- _ =>
        unfold int_div in E; fold n in E;
        destruct (Z.eqb_spec n 0); [discriminate | assumption]
    end. }
  assert (1 <= len (costhetadir_bin_edges table))%Z as Hlen.
  { match goal with
    | E : first_edge (costhetadir_bin_edges table) = Ok _ |- _ =>
        unfold first_edge, len in *;
        destruct (costhetadir_bin_edges table); [discriminate|];
        simpl length; lia
    end. }
  assert (1 <= m)%Z as Hm1.
  { repeat match goal with
    | E : py_assert ?b = Ok _ |- _ =>
        unfold py_assert in E; destruct b eqn:?; [clear E | discriminate]
    end.
    match goal with
    | E0 : first_edge (deltaphidir_bin_edges table) = Ok ?p0,
      E1 : last_edge (deltaphidir_bin_edges table) = Ok ?p1,
      Z0 : (?p0 =? 0) = true, C1 : np_isclose ?p1 PI = true |- _ =>
        subst m; unfold first_edge, last_edge, len in *;
        destruct (deltaphidir_bin_edges table) as [|e0 [|e1 rest]];
        simpl in E0, E1
    end.
    - discriminate.
    - match goal with
      | E0 : Ok _ = Ok ?p0, E1 : Ok _ = Ok ?p1,
        Z0 : (?p0 =? 0) = true, C1 : np_isclose ?p1 PI = true |- _ =>
          injection E0 as <-; injection E1 as <-;
          rewrite (zero_not_close_to_pi _ Z0) in C1; discriminate
      end.
    - simpl length. lia. }
  match goal with
  | E : int_div 2 (len (costhetadir_bin_edges table) - 1) = Ok ?f |- _ =>
      unfold int_div in E; fold n in E;
      destruct (n =? 0)%Z; [discriminate|]; injection E as <-
  end.
  repeat split; try reflexivity; try assumption.
  subst n. lia.
Qed.





Lemma clamp_is_min (raw last : Z) :
  (if (last <? raw)%Z then last else raw) = Z.min raw last.
Proof. destruct (Z.ltb_spec last raw); lia. Qed.


Lemma deltaphidir_index_clamped `{L : Libs} (cl : Closure) (x : float) :
  deltaphidir_index cl x
  = (raw ← py_int (abs (math_acos x) / table_dphidir cl);
     Ok (Z.min raw (last_deltaphidir_bin_idx cl))).
Proof.
  unfold deltaphidir_index. destruct (py_int _) as [raw|]; simpl;
    [|reflexivity].
  now rewrite clamp_is_min.
Qed.



(** Beyond [2^53] bins the float of the bin count is no longer the bin
    count, and the upper edge can fall short of the last bin: for every
    generated function with [2^54 + 2] deltaphidir bins the bin width is
    [PI / 2^54], and [deltaphi = pi] gets the index [2^54], one below the
    last bin. *)
Lemma upper_edge_beyond_2_53 `{L : Libs} (table : TableMeta)
    (kind : TableKind) (c u : bool) (nps : option Z) (sig : option float)
    (lib : ndarray float) (cl : Closure) (pdir_cosdeltaphi : float) :
  generate_pexp_5d_function table kind c u nps sig lib = Ok cl ->
  n_deltaphidir_bins cl = (2 ^ 54 + 2)%Z ->
  math_acos pdir_cosdeltaphi = PI ->
  deltaphidir_index cl pdir_cosdeltaphi = Ok (2 ^ 54)%Z
  /\ last_deltaphidir_bin_idx cl = (2 ^ 54 + 1)%Z.
Proof.
  intros Hgen Hn Hx.
  destruct (generate_direction_bins _ _ _ _ _ _ _ _ Hgen)
    as (_ & _ & _ & _ & _ & Em & Edp & Elp).
  rewrite Em in Hn. rewrite Hn in Edp, Elp.
  rewrite deltaphidir_index_clamped, Hx, Edp, Elp.
  split; [vm_compute; reflexivity | reflexivity].
Qed.


(** *** The polar-angle index *)

(** C10 fails on the code: a source on the vertical through the sensor,
    3 m above it, is inside the table (the radial cut lets it through),
    [dz / r = -1], and the polar-angle index is the number of bins, one
    past the last bin; the table access that follows is out of bounds.
    With two bins and with forty. *)
Theorem costheta_index_past_last_bin :
  (cl ← small_closure;
   Ok (geb (0 * 0 + 0 * 0 + (0 - 3) * (0 - 3)) (rsquared_max cl),
       n_costheta_bins cl)) = Ok (false, 2%Z)
  /\ (cl ← small_closure; costheta_index cl (0 - 3) (PrimFloat.sqrt 9))
      = Ok 2%Z
  /\ small_run [axis_source 3] [] 0.25 1 0.5 1 = Raise IndexError
  /\ (cl ← forty_closure; Ok (n_costheta_bins cl)) = Ok 40%Z
  /\ (cl ← forty_closure; costheta_index cl (0 - 3) (PrimFloat.sqrt 9))
      = Ok 40%Z
  /\ small_run [axis_source (-3)] [] 0.25 1 0.5 1 = Ok (100.5, 0).
Proof. repeat split; vm_compute; reflexivity. Qed.

End Pexp5dSpec.

(** ** Further properties of hypo_fast.py *)

Module HypoFastMore.
Import PyFloat Py PyFloatFacts HypoFast HypoFastSpec.
Local Open Scope float_scope.
Set Warnings "-inexact-float".

(** *** extent, point and rho_of_t together *)

Lemma extent_in_range (self : Track) (t_low t_high a b : float) :
  fle (t0 self) (t0 self + dt self) ->
  extent self t_low t_high = Some (a, b) ->
  (fle (t0 self) a /\ fle a (t0 self + dt self))
  /\ (fle (t0 self) b /\ fle b (t0 self + dt self)).
Proof.
  intros Hdt. unfold extent, geb.
  destruct (t_low <=? t0 self + dt self) eqn:E1; [|discriminate].
  destruct (t0 self <=? t_high) eqn:E2; [|discriminate]. simpl.
  intros [= <- <-].
  destruct (leb_num _ _ E1) as [N1 N2]. destruct (leb_num _ _ E2) as [N3 N4].
  destruct (py_max_ub t_low (t0 self) N1 N3) as [_ Ha].
  destruct (py_min_lb t_high (t0 self + dt self) N4 N2) as [_ Hb].
  repeat split; auto.
  - destruct (py_max_cases t_low (t0 self)) as [-> | ->]; auto.
  - destruct (py_min_cases t_high (t0 self + dt self)) as [-> | ->]; auto.
Qed.

Lemma extent_points `{RC : RetroConsts} (self : Track)
    (t_low t_high a b : float) :
  fle (t0 self) (t0 self + dt self) ->
  extent self t_low t_high = Some (a, b) ->
  exists pa pb, point self a = Some pa /\ point self b = Some pb.
Proof.
  intros Hdt Hext.
  destruct (extent_in_range self t_low t_high a b Hdt Hext)
    as [[A1 A2] [B1 B2]].
  unfold point. unfold fle in *. rewrite A1, A2, B1, B2. simpl. eauto.
Qed.

(** X1: for a track of non-negative duration, the two ends of the window
    that [extent] returns are times at which [point] is defined (its
    assertion holds) and at which [rho_of_t] is the distance travelled,
    not its out-of-range value; they are in order when the window is. *)
Theorem extent_ends_are_track_times `{RC : RetroConsts} (self : Track)
    (t_low t_high a b : float) :
  fle (t0 self) (t0 self + dt self) ->
  extent self t_low t_high = Some (a, b) ->
  (exists pa pb, point self a = Some pa /\ point self b = Some pb)
  /\ rho_of_t self a = (a - t0 self) * SPEED_OF_LIGHT_M_PER_NS
  /\ rho_of_t self b = (b - t0 self) * SPEED_OF_LIGHT_M_PER_NS
  /\ (fle t_low t_high -> fle a b).
Proof.
  intros Hdt Hext.
  destruct (extent_in_range self t_low t_high a b Hdt Hext)
    as [[A1 A2] [B1 B2]].
  split; [|split; [|split]].
  - exact (extent_points self t_low t_high a b Hdt Hext).
  - unfold rho_of_t, gtb.
    rewrite (leb_not_ltb _ _ A1), (leb_not_ltb _ _ A2). reflexivity.
  - unfold rho_of_t, gtb.
    rewrite (leb_not_ltb _ _ B1), (leb_not_ltb _ _ B2). reflexivity.
  - intros Hw. unfold extent, geb in Hext.
    destruct (t_low <=? t0 self + dt self) eqn:E1; [|discriminate].
    destruct (t0 self <=? t_high) eqn:E2; [|discriminate]. simpl in Hext.
    injection Hext as <- <-.
    destruct (py_max_cases t_low (t0 self)) as [-> | ->];
      destruct (py_min_cases t_high (t0 self + dt self)) as [-> | ->]; auto.
Qed.

Lemma extent_ends_are_track_times_witness :
  let trk := track (axis_hypo 0) in
  exists pa pb,
    point (RC := retro_consts) trk (py_max (-5) (t0 trk)) = Some pa
    /\ point (RC := retro_consts) trk (py_min 20 (t0 trk + dt trk)) = Some pb.
Proof.
  intros trk.
  exact (proj1 (extent_ends_are_track_times (RC := retro_consts) trk (-5) 20
                  _ _ eq_refl eq_refl)).
Defined.

(** *** What inner_loop writes *)

Lemma sparse_add_keeps (z : Sparse) (idx idx' : nat * nat * nat * nat)
    (v : float) :
  is_Some (z !! idx') -> is_Some (sparse_add z idx v !! idx').
Proof.
  intros H. unfold sparse_add.
  destruct (decide (idx = idx')) as [-> | Hne].
  - rewrite lookup_insert_eq. eauto.
  - now rewrite lookup_insert_ne.
Qed.

Lemma deposit_keeps z k j m i r theta phi ppm idx' :
  is_Some (z !! idx') ->
  is_Some (deposit z k j m i r theta phi ppm !! idx').
Proof.
  intros H. unfold deposit. destruct (_ <=? _); [|exact H].
  now apply sparse_add_keeps.
Qed.

Lemma foldi_from_keeps {A : Type} (f : nat -> A -> Sparse -> Sparse)
    (idx' : nat * nat * nat * nat) (l : list A) :
  (forall n a z, is_Some (z !! idx') -> is_Some (f n a z !! idx')) ->
  forall (start : nat) (z : Sparse),
  is_Some (z !! idx') -> is_Some (foldi_from f start l z !! idx').
Proof.
  intros Hf. induction l as [|a l IH]; intros start z Hz; [exact Hz|].
  simpl. apply IH. now apply Hf.
Qed.

Lemma r_loop_keeps k m i theta phi r_inter ppm z idx' :
  is_Some (z !! idx') ->
  is_Some (r_loop k m i theta phi r_inter ppm z !! idx').
Proof.
  unfold r_loop, foldi. apply foldi_from_keeps.
  intros n a z0 Hz. destruct (skipped a); [exact Hz|].
  now apply deposit_keeps.
Qed.

Lemma theta_loop_keeps k i phi theta_inter r_neg r_pos ppm z idx' :
  is_Some (z !! idx') ->
  is_Some (theta_loop k i phi theta_inter r_neg r_pos ppm z !! idx').
Proof.
  unfold theta_loop, foldi. apply foldi_from_keeps.
  intros n a z0 Hz. destruct (skipped a); [exact Hz|].
  now apply r_loop_keeps, r_loop_keeps.
Qed.

(** X2: [inner_loop] writes only cells of the time bin [k] whose other
    indices lie within the interval arrays it is given: every other cell
    of the accumulator is left as it is, and no populated cell is ever
    removed. *)
Theorem inner_loop_footprint (z : Sparse) (k : nat)
    (phi_inter theta_inter_neg theta_inter_pos r_inter_neg r_inter_pos :
       list (float * float))
    (ppm : float) (k' j' m' i' : nat) :
  (k' <> k
   \/ (length phi_inter <= i')%nat
   \/ (Nat.max (length theta_inter_neg) (length theta_inter_pos) <= m')%nat
   \/ (Nat.max (length r_inter_neg) (length r_inter_pos) <= j')%nat) ->
  inner_loop z k phi_inter theta_inter_neg theta_inter_pos
    r_inter_neg r_inter_pos ppm !! (k', j', m', i')
  = z !! (k', j', m', i')
  /\ forall idx,
       is_Some (z !! idx) ->
       is_Some (inner_loop z k phi_inter theta_inter_neg theta_inter_pos
                  r_inter_neg r_inter_pos ppm !! idx).
Proof.
  intros H. split.
  - now apply inner_loop_other.
  - intros idx. unfold inner_loop, foldi. apply foldi_from_keeps.
    intros n a z0 Hz. destruct (skipped a); [exact Hz|].
    now apply theta_loop_keeps, theta_loop_keeps.
Qed.

Lemma inner_loop_footprint_witness :
  let z : Sparse := {[ (0, 0, 0, 0)%nat := 7 ]} in
  inner_loop z 1 [(0, 2)] [(1, 3)] [] [(0, 2)] [] 10 !! (0, 0, 0, 0)%nat
  = z !! (0, 0, 0, 0)%nat.
Proof.
  intros z.
  exact (proj1 (inner_loop_footprint z 1 [(0, 2)] [(1, 3)] [] [(0, 2)] [] 10
                  0 0 0 0 (or_introl (fun H : 0%nat = 1%nat => O_S 0 H)))).
Defined.

(** *** The sentinel extent of an absent branch *)











(** *** get_bin at the edges of its domain *)

(** X4: the index [get_bin] returns is that of a bin (it is below the
    number of edges minus one); a NaN value is in no bin, and fewer than
    two edges make no bin. *)
Theorem get_bin_in_range (val : float) (edges : list float) :
  (forall k, get_bin val edges = Some k -> (S k < length edges)%nat)
  /\ (is_nan val = true -> get_bin val edges = None)
  /\ ((length edges < 2)%nat -> get_bin val edges = None).
Proof.
  split; [|split].
  - intros k H. apply get_bin_first in H as ([a b] & Hb & _).
    apply bins_lookup in Hb as [_ Hb]. now apply lookup_lt_Some in Hb.
  - intros Hnan. apply get_bin_none. intros j b _.
    unfold in_bin. destruct (fst b <=? val) eqn:E; [|reflexivity].
    destruct (leb_num _ _ E) as [_ Hn]. unfold is_num in Hn. congruence.
  - intros Hlen. apply get_bin_none. intros j b Hb.
    apply lookup_lt_Some in Hb. rewrite bins_length in Hb. lia.
Qed.

(** *** The cascade *)

(** X5: when the four bin lookups of the cascade succeed, [add_cascade]
    raises ZeroDivisionError exactly when the count of the cell plus the
    cascade's photons is zero (so for a track-only hypothesis whose origin
    cell the track did not populate); otherwise it adds the cascade's
    photons to that cell, stores the weighted average of the cell's
    correlation length and 0.5, and leaves every other cell and the two
    angle maps as they are. *)
Theorem add_cascade_found `{NP : Numpy} `{RC : RetroConsts}
    (self : Hypo) (trk : Track) (edges : BinningCoords (list float))
    (m : Matrices) (t_bin r_bin theta_bin phi_bin : nat) :
  get_bin (t0 trk) (bc_t edges) = Some t_bin ->
  get_bin (cr (x0 trk) (y0 trk) (z0 trk)) (bc_r edges) = Some r_bin ->
  get_bin (ctheta (x0 trk) (y0 trk) (z0 trk)) (bc_theta edges) = Some theta_bin ->
  get_bin (cphi (x0 trk) (y0 trk) (z0 trk)) (bc_phi edges) = Some phi_bin ->
  let idx := (t_bin, r_bin, theta_bin, phi_bin) in
  let count := sparse_get 0 (photon_counts m) idx in
  let total := count + cascade_photons self in
  ((total =? 0) = true -> add_cascade self trk edges m = Raise ZeroDivisionError)
  /\ (photon_counts m !! idx = None ->
      (cascade_photons self =? 0) = true ->
      add_cascade self trk edges m = Raise ZeroDivisionError)
  /\ ((total =? 0) = false ->
      exists m', add_cascade self trk edges m = Ok m'
        /\ photon_counts m' !! idx = Some total
        /\ photon_corr_len m' !! idx
           = Some ((sparse_get 0 (photon_corr_len m) idx * count
                    + 0.5 * cascade_photons self) / total)
        /\ (forall idx', idx' <> idx ->
              photon_counts m' !! idx' = photon_counts m !! idx'
              /\ photon_corr_len m' !! idx' = photon_corr_len m !! idx')
        /\ photon_corr_theta m' = photon_corr_theta m
        /\ photon_corr_phi m' = photon_corr_phi m).
Proof.
  intros Ht Hr Hth Hp idx count total.
  unfold add_cascade. rewrite Ht, Hr, Hth, Hp.
  fold idx. unfold np_average2. fold count. fold total.
  split; [|split].
  - intros ->. reflexivity.
  - intros Hnone Hzero.
    assert (total = cascade_photons self \/ (total =? 0) = true) as Hc.
    { subst total count. unfold sparse_get. rewrite Hnone.
      destruct (eqb_zero _ Hzero) as [-> | ->]; right; reflexivity. }
    destruct Hc as [-> | ->]; [rewrite Hzero|]; reflexivity.
  - intros ->. simpl. eexists. split; [reflexivity|]. simpl.
    split; [unfold sparse_add; now rewrite lookup_insert_eq|].
    split; [now rewrite lookup_insert_eq|].
    split; [|split; reflexivity].
    intros idx' Hne. split.
    + now apply sparse_add_other.
    + now rewrite lookup_insert_ne.
Qed.

Lemma add_cascade_found_witness :
  let h := Hypo_init (NP := np_on_axes) (RC := retro_consts)
             (mkHypoParams 0 0 0 2 0 0 0.25 0) 1 1 in
  add_cascade (NP := np_on_axes) (RC := retro_consts) h (track h) axis_binning
    {| photon_counts := ∅; photon_corr_theta := ∅;
       photon_corr_phi := ∅; photon_corr_len := ∅ |}
  = Raise ZeroDivisionError.
Proof.
  intros h.
  refine (proj1 (proj2 (add_cascade_found (NP := np_on_axes) (RC := retro_consts)
                   h (track h) axis_binning
                   {| photon_counts := ∅; photon_corr_theta := ∅;
                      photon_corr_phi := ∅; photon_corr_len := ∅ |}
                   0 0 0 0 _ _ _ _)) eq_refl eq_refl);
    vm_compute; reflexivity.
Defined.

(** *** Which exceptions compute_matrices can raise *)

Lemma point_under_guard `{RC : RetroConsts} (trk : Track) (t : float) :
  geb t (t0 trk) && (t <? t0 trk + dt trk) = true ->
  exists p, point trk t = Some p.
Proof.
  unfold geb. intros H. apply andb_true_iff in H as [H1 H2].
  unfold point. rewrite H1, (ltb_leb _ _ H2). simpl. eauto.
Qed.

Lemma time_bin_step_raises `{NP : Numpy} `{RC : RetroConsts}
    (trk : Track) (edges : BinningCoords (list float)) (ppm tb_ ts_ : float)
    (rip tip : option float) (k : nat) (time_bin : float * float)
    (z : Sparse) (e : exn) :
  fle (t0 trk) (t0 trk + dt trk) ->
  time_bin_step trk edges ppm tb_ ts_ rip tip k time_bin z = Raise e ->
  e = UnboundLocalError.
Proof.
  intros Hdt. unfold time_bin_step.
  destruct (extent trk (fst time_bin) (snd time_bin)) as [[a b]|] eqn:E;
    [|discriminate].
  destruct (extent_points trk _ _ a b Hdt E) as (pa & pb & Ha & Hb).
  cbn [fst snd]. rewrite Ha, Hb.
  destruct pa as [[? ?] ?], pb as [[? ?] ?]. simpl.
  destruct (tb_ <=? a); simpl.
  - destruct (ts_ <=? a); simpl; [discriminate|].
    destruct (geb ts_ b); simpl; [discriminate|].
    destruct tip; simpl; [discriminate | congruence].
  - destruct (gtb tb_ b); simpl.
    + destruct (ts_ <=? a); simpl; [discriminate|].
      destruct (geb ts_ b); simpl; [discriminate|].
      destruct tip; simpl; [discriminate | congruence].
    + destruct rip; simpl; [|congruence].
      destruct (ts_ <=? a); simpl; [discriminate|].
      destruct (geb ts_ b); simpl; [discriminate|].
      destruct tip; simpl; [discriminate | congruence].
Qed.











(** *** The inflection point that is read before it is bound *)

Lemma SFeqb_not_ltb x y : SFeqb x y = true -> SFltb x y = false.
Proof. unfold SFeqb, SFltb. destruct (SFcompare x y) as [[]|]; congruence. Qed.

Lemma eqb_not_ltb x y : (x =? y) = true -> (x <? y) = false.
Proof. rewrite FloatAxioms.eqb_spec, ltb_spec. apply SFeqb_not_ltb. Qed.

Lemma foldi_from_r_raises_at {A S : Type} (f : nat -> A -> S -> result S)
    (e0 : exn) (l : list A) :
  (forall i a s e, f i a s = Raise e -> e = e0) ->
  forall k x i s,
    l !! k = Some x -> (forall s', f (i + k)%nat x s' = Raise e0) ->
    foldi_from_r f i l s = Raise e0.
Proof.
  intros Hf. induction l as [|a l IH]; intros k x i s Hk Hx; [discriminate|].
  simpl. destruct k as [|k]; simpl in Hk.
  - injection Hk as ->. rewrite Nat.add_0_r in Hx. now rewrite Hx.
  - destruct (f i a s) as [s1|e] eqn:E.
    + apply (IH k x). { exact Hk. }
      intros s'. rewrite <- Hx with (s' := s'). f_equal. lia.
    + f_equal. exact (Hf _ _ _ _ E).
Qed.

(** A time bin that needs the radial inflection point while the guard that
    binds it failed. *)
Lemma time_bin_step_unbound `{NP : Numpy} `{RC : RetroConsts}
    (trk : Track) (edges : BinningCoords (list float)) (ppm tb_ ts_ : float)
    (tip : option float) (k : nat) (time_bin : float * float)
    (a b : float) (z : Sparse) :
  fle (t0 trk) (t0 trk + dt trk) ->
  extent trk (fst time_bin) (snd time_bin) = Some (a, b) ->
  (tb_ <=? a) = false -> gtb tb_ b = false ->
  time_bin_step trk edges ppm tb_ ts_ None tip k time_bin z
  = Raise UnboundLocalError.
Proof.
  intros Hdt E H1 H2. unfold time_bin_step. rewrite E.
  destruct (extent_points trk _ _ a b Hdt E) as (pa & pb & Ha & Hb).
  cbn [fst snd]. rewrite Ha, Hb, H1, H2.
  destruct pa as [[? ?] ?], pb as [[? ?] ?]. reflexivity.
Qed.

(** X7: when the closest approach of the track to the sensor is exactly at
    the track's end ([tb] equals [t0 + dt]), the guard of
    [compute_matrices] leaves [r_inflection_point] unbound, since it asks
    for [tb < t0 + dt]; a time bin that holds the track's end and a
    part of the track before it then reads the unbound name, and the call
    raises UnboundLocalError. *)
Theorem inflection_point_unbound_at_track_end `{NP : Numpy} `{RC : RetroConsts}
    (h : Hypo) (edges : BinningCoords (list float))
    (hit_dom_coord : TimeSpaceCoord)
    (k : nat) (time_bin : float * float) (a b : float) :
  let trk := set_origin (track h) hit_dom_coord in
  fle (t0 trk) (t0 trk + dt trk) ->
  (tb trk =? t0 trk + dt trk) = true ->
  bins (bc_t edges) !! k = Some time_bin ->
  extent trk (fst time_bin) (snd time_bin) = Some (a, b) ->
  flt a (tb trk) -> fle (tb trk) b ->
  compute_matrices (set_binning h edges) hit_dom_coord
  = Raise UnboundLocalError.
Proof.
  intros trk Hdt Hend Hk Hext Hlt Hle. unfold compute_matrices.
  change (track (set_binning h edges)) with (track h). fold trk.
  cbn [set_binning bin_edges bin_centers of_option mbind result_bind
       photons_per_meter bc_phi].
  rewrite (eqb_not_ltb _ _ Hend), andb_false_r.
  assert (gtb (tb trk) b = false) as Hb.
  { unfold gtb. now apply leb_not_ltb. }
  assert (forall tip,
    foldi_r (time_bin_step trk edges (photons_per_meter h)
               (tb trk) (ts trk) None tip) (bins (bc_t edges)) ∅
    = Raise UnboundLocalError) as Hloop.
  { intros tip. unfold foldi_r.
    apply (foldi_from_r_raises_at _ UnboundLocalError _
             (fun i x s e => time_bin_step_raises trk edges _ _ _
                               None tip i x s e Hdt)
             k time_bin 0%nat ∅ Hk).
    intros s'.
    exact (time_bin_step_unbound trk edges _ _ _ tip _ time_bin a b s'
             Hdt Hext (ltb_not_leb _ _ Hlt) Hb). }
  destruct (geb (ts trk) (t0 trk) && (ts trk <? t0 trk + dt trk)) eqn:G2;
    [destruct (point_under_guard trk _ G2) as ([[xs ys] zs] & ->)|];
    cbn [of_option mbind result_bind]; rewrite Hloop; reflexivity.
Qed.

Lemma inflection_point_unbound_at_track_end_witness :
  compute_matrices (NP := np_on_axes) (RC := retro_consts)
    (set_binning
       (Hypo_init (NP := np_on_axes) (RC := retro_consts)
          (mkHypoParams 0 0 0 (-1.1363636363636365) 0 0 0.25 0) 1 1)
       axis_binning)
    sensor_at_origin
  = Raise UnboundLocalError.
Proof.
  refine (inflection_point_unbound_at_track_end (NP := np_on_axes)
            (RC := retro_consts) _ axis_binning sensor_at_origin
            0 (-5, 20) 0 3.7905010817971827 _ _ _ _ _ _);
    vm_compute; reflexivity.
Defined.

(** *** Calling compute_matrices again *)

Lemma set_origin_idempotent (self : Track) (coord : TimeSpaceCoord) :
  set_origin (set_origin self coord) coord = set_origin self coord.
Proof.
  unfold set_origin at 2 3.
  destruct (match origin self with
            | Some o => coord_eqb coord o | None => false end) eqn:E.
  - unfold set_origin. now rewrite E.
  - unfold set_origin. cbn [origin params track_length dt sinphi cosphi
      tanphi sintheta costheta].
    destruct (coord_eqb coord coord); reflexivity.
Qed.

(** X8: a call of [compute_matrices] that returns leaves the hypothesis in
    a state that a second call with the same sensor reproduces: the origin
    is not moved again and the four accumulators are built afresh, so
    nothing is counted twice. *)
Theorem compute_matrices_again `{NP : Numpy} `{RC : RetroConsts}
    (h h' : Hypo) (hit_dom_coord : TimeSpaceCoord) :
  compute_matrices h hit_dom_coord = Ok h' ->
  compute_matrices h' hit_dom_coord = Ok h'.
Proof.
  unfold compute_matrices at 1.
  destruct (bin_edges h) as [edges|] eqn:Ee; [|discriminate].
  destruct (bin_centers h) as [cs|] eqn:Ec; [|discriminate].
  cbn [of_option mbind result_bind].
  set (trk := set_origin (track h) hit_dom_coord).
  destruct (if geb (tb trk) (t0 trk) && (tb trk <? t0 trk + dt trk)
            then _ else _) as [rip|] eqn:E1; [|discriminate].
  cbn [mbind result_bind].
  destruct (if geb (ts trk) (t0 trk) && (ts trk <? t0 trk + dt trk)
            then _ else _) as [tip|] eqn:E2; [|discriminate].
  cbn [mbind result_bind].
  destruct (foldi_r _ _ _) as [counts|] eqn:E3; [|discriminate].
  cbn [mbind result_bind].
  destruct (add_angles _ _ _ _) as [[[ct cp] cl]|] eqn:E4; [|discriminate].
  cbn [mbind result_bind].
  destruct (add_cascade _ _ _ _) as [m|] eqn:E5; [|discriminate].
  cbn [mbind result_bind].
  intros [= <-].
  assert (set_origin trk hit_dom_coord = trk) as Hidem
    by apply set_origin_idempotent.
  unfold compute_matrices.
  cbn [track bin_edges bin_centers photons_per_meter hypo_params
       cascade_photons track_photons tot_photons shape
       of_option mbind result_bind].
  rewrite Hidem.
  rewrite E1. cbn [mbind result_bind].
  rewrite E2. cbn [mbind result_bind].
  rewrite E3. cbn [mbind result_bind].
  unfold add_angles in *. rewrite E4. cbn [mbind result_bind].
  unfold add_cascade in *. cbn [cascade_photons]. rewrite E5. reflexivity.
Qed.

Lemma compute_matrices_again_witness :
  exists h', axis_run 0 = Ok h'
    /\ compute_matrices (NP := np_on_axes) (RC := retro_consts)
         h' sensor_at_origin = Ok h'.
Proof.
  eexists. split; [vm_compute; reflexivity|].
  apply (compute_matrices_again (NP := np_on_axes) (RC := retro_consts)
           (axis_hypo 0)).
  vm_compute; reflexivity.
Defined.

End HypoFastMore.

(** ** Further properties of tables/pexp_5d.py *)

Module Pexp5dMore.
Import PyFloat Py PyFloatFacts Pexp5d.
Local Open Scope float_scope.
Set Warnings "-inexact-float".

Ltac run_binds H :=
  repeat match type of H with
  | mbind _ ?m = Ok _ =>
      let E := fresh "E" in destruct m eqn:E; simpl in H; [|discriminate]
  end.

Lemma small_closure_of_small_cl (compute : bool) :
  small_closure_of raw_uncompr compute = Ok (small_cl true compute)
  /\ small_closure_of ckv_uncompr compute = Ok (small_cl false compute).
Proof. destruct compute; split; vm_compute; reflexivity. Qed.

(** *** The radial cut *)

Lemma source_step_beyond_cut `{L : Libs} (cl : Closure)
    (hits : list (float * float)) (dom_info : DomInfo)
    (table : Table) (table_norm t_indep_table t_indep_table_norm : ndarray float)
    (source : Source) (acc : float * list float) :
  beyond_cut cl dom_info source = true ->
  source_step cl hits dom_info table table_norm t_indep_table
    t_indep_table_norm source acc = Ok acc.
Proof.
  unfold beyond_cut, source_step. intros H. destruct acc as [a e].
  cbv zeta in *. rewrite H. reflexivity.
Qed.

Lemma source_loop_filter `{L : Libs} (cl : Closure)
    (hits : list (float * float)) (dom_info : DomInfo)
    (table : Table) (table_norm t_indep_table t_indep_table_norm : ndarray float)
    (sources : list Source) :
  forall acc,
  source_loop cl hits dom_info table table_norm t_indep_table
    t_indep_table_norm sources acc
  = source_loop cl hits dom_info table table_norm t_indep_table
      t_indep_table_norm
      (List.filter (fun s => negb (beyond_cut cl dom_info s)) sources) acc.
Proof.
  induction sources as [|s sources IH]; intros acc; simpl; [reflexivity|].
  destruct (beyond_cut cl dom_info s) eqn:E; simpl.
  - rewrite (source_step_beyond_cut cl hits dom_info table table_norm
               t_indep_table t_indep_table_norm s acc E).
    simpl. apply IH.
  - destruct (source_step _ _ _ _ _ _ _ _ _); simpl; [apply IH | reflexivity].
Qed.

(** X9: sources at or beyond the largest radius of the table do not
    enter the result: an evaluation gives what it gives for the sources
    within the radius alone, in the same order, whatever their kind and
    direction are. *)
Theorem sources_beyond_cut_are_dropped `{L : Libs} (cl : Closure)
    (sources : list Source) (hits : list (float * float))
    (dom_info : DomInfo) (time_window : float)
    (table : Table) (table_norm t_indep_table t_indep_table_norm : ndarray float) :
  pexp_5d cl sources hits dom_info time_window table table_norm
    t_indep_table t_indep_table_norm
  = pexp_5d cl
      (List.filter (fun s => negb (beyond_cut cl dom_info s)) sources)
      hits dom_info time_window table table_norm
      t_indep_table t_indep_table_norm.
Proof.
  unfold pexp_5d. destruct (negb (operational dom_info)); [reflexivity|].
  now rewrite source_loop_filter.
Qed.

(** *** Without the time-independent expectation *)

Lemma source_step_all_times `{L : Libs} (cl : Closure)
    (hits : list (float * float)) (dom_info : DomInfo)
    (table : Table) (table_norm t_indep_table t_indep_table_norm : ndarray float)
    (source : Source) (acc acc' : float * list float) :
  compute_t_indep_exp cl = false ->
  source_step cl hits dom_info table table_norm t_indep_table
    t_indep_table_norm source acc = Ok acc' ->
  fst acc' = fst acc.
Proof.
  intros Hc H. unfold source_step in H. destruct acc as [a e].
  destruct (geb _ (rsquared_max cl)); [injection H as <-; reflexivity|].
  rewrite Hc in H. run_binds H. injection H as <-. reflexivity.
Qed.

Lemma source_loop_all_times `{L : Libs} (cl : Closure)
    (hits : list (float * float)) (dom_info : DomInfo)
    (table : Table) (table_norm t_indep_table t_indep_table_norm : ndarray float)
    (sources : list Source) :
  compute_t_indep_exp cl = false ->
  forall acc acc',
  source_loop cl hits dom_info table table_norm t_indep_table
    t_indep_table_norm sources acc = Ok acc' ->
  fst acc' = fst acc.
Proof.
  intros Hc. induction sources as [|s sources IH]; intros acc acc' H;
    simpl in H.
  - injection H as <-. reflexivity.
  - destruct (source_step _ _ _ _ _ _ _ _ _) as [acc1|] eqn:E;
      simpl in H; [|discriminate].
    rewrite (IH _ _ H).
    exact (source_step_all_times cl hits dom_info table table_norm
             t_indep_table t_indep_table_norm s acc acc1 Hc E).
Qed.

(** X10: with [compute_t_indep_exp] disabled, the first number an
    evaluation returns holds nothing of the sources: for a working sensor
    it is the accumulator's initial zero times the quantum efficiency,
    plus the noise rate times the time window. *)
Theorem all_times_without_t_indep `{L : Libs} (cl : Closure)
    (sources : list Source) (hits : list (float * float))
    (dom_info : DomInfo) (time_window : float)
    (table : Table) (table_norm t_indep_table t_indep_table_norm : ndarray float)
    (exp_p_at_all_times sum_log_at_hit_times : float) :
  compute_t_indep_exp cl = false ->
  pexp_5d cl sources hits dom_info time_window table table_norm
    t_indep_table t_indep_table_norm
  = Ok (exp_p_at_all_times, sum_log_at_hit_times) ->
  exp_p_at_all_times
  = if operational dom_info
    then 0 * quantum_efficiency dom_info
         + noise_rate_per_ns dom_info * time_window
    else 0.
Proof.
  intros Hc. unfold pexp_5d.
  destruct (operational dom_info); simpl; [|intros [= <- _]; reflexivity].
  destruct (source_loop _ _ _ _ _ _ _ _ _) as [[a0 e0]|] eqn:E; simpl;
    [|discriminate].
  apply (source_loop_all_times cl hits dom_info table table_norm
           t_indep_table t_indep_table_norm sources Hc) in E.
  simpl in E. subst a0.
  destruct (sum_log _ _ _ _); simpl; [|discriminate].
  destruct (np_isinf _); [discriminate|].
  intros [= <- _]. reflexivity.
Qed.

Lemma all_times_without_t_indep_witness :
  pexp_5d (L := libs_on_axes) (small_cl false false)
    [axis_source (-3)] [(5, 1)] small_dom 100
    (Plain (constant [2; 2; 2; 2; 2]%nat 0.25)) (constant [2; 2]%nat 1)
    (constant [2; 2; 2; 2]%nat 0.5) (constant [2]%nat 1)
  = Ok (100, 0x1.c8ff7c79a9a22p-3)
  /\ 100 = 0 * 1 + 1 * 100.
Proof.
  assert (pexp_5d (L := libs_on_axes) (small_cl false false)
            [axis_source (-3)] [(5, 1)] small_dom 100
            (Plain (constant [2; 2; 2; 2; 2]%nat 0.25)) (constant [2; 2]%nat 1)
            (constant [2; 2; 2; 2]%nat 0.5) (constant [2]%nat 1)
          = Ok (100, 0x1.c8ff7c79a9a22p-3)) as Hrun by (vm_compute; reflexivity).
  split; [exact Hrun|].
  exact (all_times_without_t_indep (L := libs_on_axes) (small_cl false false)
           _ _ small_dom 100 _ _ _ _ _ _ eq_refl Hrun).
Defined.

(** *** Source kinds *)

Lemma source_loop_raises_in `{L : Libs} (cl : Closure)
    (hits : list (float * float)) (dom_info : DomInfo)
    (table : Table) (table_norm t_indep_table t_indep_table_norm : ndarray float)
    (source : Source) (sources : list Source) :
  (forall acc, raises (source_step cl hits dom_info table table_norm
                         t_indep_table t_indep_table_norm source acc)) ->
  In source sources ->
  forall acc,
  raises (source_loop cl hits dom_info table table_norm t_indep_table
            t_indep_table_norm sources acc).
Proof.
  intros Hs. induction sources as [|s sources IH]; intros Hin acc; [easy|].
  simpl. destruct Hin as [-> | Hin].
  - destruct (Hs acc) as [e ->]. now exists e.
  - destruct (source_step _ _ _ _ _ _ _ s acc) as [acc1|e]; simpl.
    + now apply IH.
    + now exists e.
Qed.

Lemma pexp_5d_raises_in `{L : Libs} (cl : Closure)
    (hits : list (float * float)) (dom_info : DomInfo)
    (table : Table) (table_norm t_indep_table t_indep_table_norm : ndarray float)
    (source : Source) (sources : list Source) (time_window : float) :
  (forall acc, raises (source_step cl hits dom_info table table_norm
                         t_indep_table t_indep_table_norm source acc)) ->
  In source sources -> operational dom_info = true ->
  raises (pexp_5d cl sources hits dom_info time_window table table_norm
            t_indep_table t_indep_table_norm).
Proof.
  intros Hs Hin Hop. unfold pexp_5d. rewrite Hop. simpl.
  destruct (source_loop_raises_in cl hits dom_info table table_norm
              t_indep_table t_indep_table_norm source sources Hs Hin
              (0, repeat 0 (length hits))) as [e ->].
  now exists e.
Qed.

Lemma kind_branch_omni `{L : Libs} (cl : Closure) (source : Source)
    (dx dy rhosquared : float) (r_bin_idx costheta_bin_idx : Z)
    (t_indep_table : ndarray float) :
  SRC_OMNI <> SRC_CKV_BETA1 ->
  compute_t_indep_exp cl = false ->
  s_kind source = SRC_OMNI ->
  kind_branch cl source dx dy rhosquared r_bin_idx costheta_bin_idx
    t_indep_table = Raise NotImplementedError.
Proof.
  intros Hne Hc Hk. unfold kind_branch. cbv zeta.
  rewrite Hc, andb_false_r, Hk.
  destruct (Z.eqb_spec SRC_OMNI SRC_CKV_BETA1); [contradiction | reflexivity].
Qed.

(** X11: an omnidirectional source within the radius of the table is
    only handled when [compute_t_indep_exp] is enabled; without it the
    turn of the source loop raises (NotImplementedError once the two bin
    indices are computed), and so does the evaluation of a working sensor
    with such a source among its sources. *)
Theorem omni_source_without_t_indep `{L : Libs} (cl : Closure)
    (hits : list (float * float)) (dom_info : DomInfo)
    (table : Table) (table_norm t_indep_table t_indep_table_norm : ndarray float)
    (source : Source) :
  let dx := d_x dom_info - s_x source in
  let dy := d_y dom_info - s_y source in
  let dz := d_z dom_info - s_z source in
  let r := PrimFloat.sqrt (dx * dx + dy * dy + dz * dz) in
  SRC_OMNI <> SRC_CKV_BETA1 ->
  compute_t_indep_exp cl = false ->
  s_kind source = SRC_OMNI ->
  beyond_cut cl dom_info source = false ->
  (forall acc,
     raises (source_step cl hits dom_info table table_norm t_indep_table
               t_indep_table_norm source acc))
  /\ (forall acc i j,
        r_index cl r = Ok i -> costheta_index cl dz r = Ok j ->
        source_step cl hits dom_info table table_norm t_indep_table
          t_indep_table_norm source acc = Raise NotImplementedError)
  /\ (forall sources time_window,
        In source sources -> operational dom_info = true ->
        raises (pexp_5d cl sources hits dom_info time_window table
                  table_norm t_indep_table t_indep_table_norm)).
Proof.
  intros dx dy dz r Hne Hc Hk Hcut.
  assert (forall acc,
    source_step cl hits dom_info table table_norm t_indep_table
      t_indep_table_norm source acc
    = match r_index cl r with
      | Ok _ => match costheta_index cl dz r with
                | Ok _ => Raise NotImplementedError
                | Raise e => Raise e
                end
      | Raise e => Raise e
      end) as Hstep.
  { intros [a e]. unfold source_step. unfold beyond_cut in Hcut.
    cbv zeta in *. fold dx dy dz. fold dx dy dz in Hcut. rewrite Hcut.
    fold r. destruct (r_index cl r) as [i|]; simpl; [|reflexivity].
    destruct (costheta_index cl dz r) as [j|]; simpl; [|reflexivity].
    now rewrite (kind_branch_omni cl source _ _ _ i j t_indep_table Hne Hc Hk). }
  assert (forall acc,
    raises (source_step cl hits dom_info table table_norm t_indep_table
              t_indep_table_norm source acc)) as Hraises.
  { intros acc. rewrite Hstep.
    destruct (r_index cl r) as [i|e]; [|now exists e].
    destruct (costheta_index cl dz r) as [j|e]; [|now exists e].
    now exists NotImplementedError. }
  split; [exact Hraises|]. split.
  - intros acc i j Hi Hj. now rewrite Hstep, Hi, Hj.
  - intros sources time_window Hin Hop.
    now apply (pexp_5d_raises_in cl hits dom_info table table_norm
                 t_indep_table t_indep_table_norm source sources).
Qed.

Lemma omni_source_without_t_indep_witness :
  source_step (L := libs_on_axes) (small_cl false false) [(5, 1)] small_dom
    (Plain (constant [2; 2; 2; 2; 2]%nat 0.25)) (constant [2; 2]%nat 1)
    (constant [2; 2; 2; 2]%nat 0.5) (constant [2]%nat 1)
    (omni_source (-3)) (0, [0])
  = Raise NotImplementedError.
Proof.
  refine (proj1 (proj2 (omni_source_without_t_indep (L := libs_on_axes)
                   (small_cl false false) [(5, 1)] small_dom _ _ _ _
                   (omni_source (-3)) _ _ _ _))
            (0, [0]) 0%Z 0%Z _ _);
    vm_compute; try reflexivity; discriminate.
Defined.

(** *** A raw table and a Cherenkov source *)

Lemma hit_step_unreached `{L : Libs} (cl : Closure) (source : Source)
    (r_bin_idx costheta_bin_idx : Z) (lc : Locals) (table : Table)
    (table_norm : ndarray float) (i : nat) (hit : float * float)
    (acc : list float) :
  reaches_lookup cl source hit = false ->
  hit_step cl source r_bin_idx costheta_bin_idx lc table table_norm i hit acc
  = Ok acc.
Proof.
  unfold reaches_lookup, hit_step. intros H.
  destruct (s_t source <=? fst hit); simpl in *; [|reflexivity].
  destruct (geb _ (t_max cl)); simpl in *; [reflexivity | discriminate].
Qed.

Lemma hit_loop_unreached `{L : Libs} (cl : Closure) (source : Source)
    (r_bin_idx costheta_bin_idx : Z) (lc : Locals) (table : Table)
    (table_norm : ndarray float) (hits : list (float * float)) :
  Forall (fun hit => reaches_lookup cl source hit = false) hits ->
  forall i acc,
  foldi_from_r
    (hit_step cl source r_bin_idx costheta_bin_idx lc table table_norm)
    i hits acc = Ok acc.
Proof.
  induction 1 as [|hit hits Hhit _ IH]; intros i acc; simpl; [reflexivity|].
  rewrite (hit_step_unreached cl source _ _ lc table table_norm i hit acc Hhit).
  apply IH.
Qed.

Lemma hit_step_unbound `{L : Libs} (cl : Closure) (source : Source)
    (r_bin_idx costheta_bin_idx : Z) (lc : Locals) (table : Table)
    (table_norm : ndarray float) (i : nat) (hit : float * float)
    (acc : list float) :
  (s_kind source =? SRC_OMNI)%Z = false ->
  costhetadir_bin_idx lc = None ->
  reaches_lookup cl source hit = true ->
  raises (hit_step cl source r_bin_idx costheta_bin_idx lc table table_norm
            i hit acc).
Proof.
  unfold reaches_lookup, hit_step. intros Hk Hlc H.
  apply andb_true_iff in H as [H1 H2]. rewrite H1. simpl.
  destruct (geb _ (t_max cl)); [discriminate|].
  destruct (py_int _) as [t|e]; simpl; [|now exists e].
  destruct (index table_norm _) as [n|e]; simpl; [|now exists e].
  rewrite Hk, Hlc.
  destruct (s_kind source =? SRC_CKV_BETA1)%Z; simpl; eexists; reflexivity.
Qed.

Lemma hit_loop_unbound `{L : Libs} (cl : Closure) (source : Source)
    (r_bin_idx costheta_bin_idx : Z) (lc : Locals) (table : Table)
    (table_norm : ndarray float) (hits : list (float * float)) :
  (s_kind source =? SRC_OMNI)%Z = false ->
  costhetadir_bin_idx lc = None ->
  Exists (fun hit => reaches_lookup cl source hit = true) hits ->
  forall i acc,
  raises (foldi_from_r
            (hit_step cl source r_bin_idx costheta_bin_idx lc table table_norm)
            i hits acc).
Proof.
  intros Hk Hlc. induction 1 as [hit hits Hhit | hit hits _ IH];
    intros i acc; simpl.
  - destruct (hit_step_unbound cl source r_bin_idx costheta_bin_idx lc table
                table_norm i hit acc Hk Hlc Hhit) as [e ->].
    now exists e.
  - destruct (hit_step _ _ _ _ _ _ _ _ _ _) as [acc1|e]; [apply IH|].
    now exists e.
Qed.

Lemma kind_branch_raw `{L : Libs} (cl : Closure) (source : Source)
    (dx dy rhosquared : float) (r_bin_idx costheta_bin_idx : Z)
    (t_indep_table : ndarray float) (lc : Locals) :
  tbl_is_raw cl = true ->
  (s_kind source =? SRC_OMNI)%Z = false ->
  kind_branch cl source dx dy rhosquared r_bin_idx costheta_bin_idx
    t_indep_table = Ok lc ->
  costhetadir_bin_idx lc = None.
Proof.
  intros Hraw Hk. unfold kind_branch. cbv zeta. rewrite Hk, Hraw. simpl.
  destruct (s_kind source =? SRC_CKV_BETA1)%Z; [|discriminate].
  destruct (PrimFloat.sqrt rhosquared <=? MACHINE_EPS);
    destruct (gtb (ckv_sigma_deg cl) 0);
    destruct (compute_t_indep_exp cl); simpl;
    try (destruct (slice t_indep_table _); simpl);
    try discriminate; intros [= <-]; reflexivity.
Qed.

(** X12: with a raw table, a Cherenkov source within the radius of the
    table binds neither direction index, and the hit loop reads both: the
    turn of the source loop raises as soon as one hit gets past the two
    time tests, and a turn that completes has left every per-hit
    expectation as it was. *)
Theorem raw_table_cherenkov_source `{L : Libs} (cl : Closure)
    (hits : list (float * float)) (dom_info : DomInfo)
    (table : Table) (table_norm t_indep_table t_indep_table_norm : ndarray float)
    (source : Source) (acc : float * list float) :
  SRC_OMNI <> SRC_CKV_BETA1 ->
  tbl_is_raw cl = true ->
  s_kind source = SRC_CKV_BETA1 ->
  beyond_cut cl dom_info source = false ->
  (Exists (fun hit => reaches_lookup cl source hit = true) hits ->
   raises (source_step cl hits dom_info table table_norm t_indep_table
             t_indep_table_norm source acc))
  /\ (forall acc',
        source_step cl hits dom_info table table_norm t_indep_table
          t_indep_table_norm source acc = Ok acc' ->
        snd acc' = snd acc).
Proof.
  intros Hne Hraw Hkind Hcut.
  assert ((s_kind source =? SRC_OMNI)%Z = false) as Hk.
  { rewrite Hkind. destruct (Z.eqb_spec SRC_CKV_BETA1 SRC_OMNI); congruence. }
  destruct acc as [a e]. unfold beyond_cut in Hcut. split.
  - intros Hex. unfold source_step. cbv zeta in *. rewrite Hcut.
    destruct (r_index cl _) as [i|x]; simpl; [|now exists x].
    destruct (costheta_index cl _ _) as [j|x]; simpl; [|now exists x].
    destruct (kind_branch cl source _ _ _ i j t_indep_table) as [lc|x] eqn:Eb;
      simpl; [|now exists x].
    pose proof (kind_branch_raw cl source _ _ _ i j t_indep_table lc
                  Hraw Hk Eb) as Hlc.
    match goal with
    | |- raises (mbind _ ?m) => destruct m as [a1|x]; simpl; [|now exists x]
    end.
    unfold foldi_r.
    destruct (hit_loop_unbound cl source i j lc table table_norm hits
                Hk Hlc Hex 0%nat e) as [x ->].
    now exists x.
  - intros acc' H. unfold source_step in H. cbv zeta in *.
    rewrite Hcut in H.
    destruct (r_index cl _) as [i|]; simpl in H; [|discriminate].
    destruct (costheta_index cl _ _) as [j|]; simpl in H; [|discriminate].
    destruct (kind_branch cl source _ _ _ i j t_indep_table) as [lc|] eqn:Eb;
      simpl in H; [|discriminate].
    pose proof (kind_branch_raw cl source _ _ _ i j t_indep_table lc
                  Hraw Hk Eb) as Hlc.
    match type of H with
    | mbind _ ?m = _ => destruct m as [a1|]; simpl in H; [|discriminate]
    end.
    destruct (foldi_r _ hits e) as [e1|] eqn:Ef; simpl in H; [|discriminate].
    injection H as <-. simpl.
    assert (forall hit, {reaches_lookup cl source hit = true}
                        + {reaches_lookup cl source hit <> true}) as Hdec.
    { intros hit. destruct (reaches_lookup cl source hit);
        [left; reflexivity | right; discriminate]. }
    destruct (List.Exists_dec (fun hit => reaches_lookup cl source hit = true)
                hits Hdec) as [Hex | Hnex].
    + destruct (hit_loop_unbound cl source i j lc table table_norm hits
                  Hk Hlc Hex 0%nat e) as [x Hx].
      unfold foldi_r in Ef. congruence.
    + assert (Forall (fun hit => reaches_lookup cl source hit = false) hits)
        as Hall.
      { apply Forall_forall. intros hit Hin.
        destruct (reaches_lookup cl source hit) eqn:E; [|reflexivity].
        exfalso. apply Hnex. apply Exists_exists. eauto. }
      unfold foldi_r in Ef.
      rewrite (hit_loop_unreached cl source i j lc table table_norm hits
                 Hall 0%nat e) in Ef.
      congruence.
Qed.

Lemma raw_table_cherenkov_source_witness :
  raises (source_step (L := libs_on_axes) (small_cl true false)
            [(-1, 1); (5, 1)] small_dom
            (Plain (constant [2; 2; 2; 2; 2]%nat 0.25)) (constant [2; 2]%nat 1)
            (constant [2; 2; 2; 2]%nat 0.5) (constant [2]%nat 1)
            (axis_source (-3)) (0, [0; 0])).
Proof.
  refine (proj1 (raw_table_cherenkov_source (L := libs_on_axes)
                   (small_cl true false) [(-1, 1); (5, 1)] small_dom _ _ _ _
                   (axis_source (-3)) (0, [0; 0]) _ _ _ _) _).
  - vm_compute. discriminate.
  - reflexivity.
  - reflexivity.
  - vm_compute. reflexivity.
  - apply Exists_cons_tl, Exists_cons_hd. vm_compute. reflexivity.
Defined.

(** *** Hits that no source reaches *)

Lemma source_step_unreached `{L : Libs} (cl : Closure)
    (hits : list (float * float)) (dom_info : DomInfo)
    (table : Table) (table_norm t_indep_table t_indep_table_norm : ndarray float)
    (source : Source) (acc acc' : float * list float) :
  beyond_cut cl dom_info source = true
  \/ Forall (fun hit => reaches_lookup cl source hit = false) hits ->
  source_step cl hits dom_info table table_norm t_indep_table
    t_indep_table_norm source acc = Ok acc' ->
  snd acc' = snd acc.
Proof.
  intros [Hcut | Hall] H.
  - rewrite (source_step_beyond_cut cl hits dom_info table table_norm
               t_indep_table t_indep_table_norm source acc Hcut) in H.
    now injection H as <-.
  - unfold source_step in H. destruct acc as [a e].
    destruct (geb _ (rsquared_max cl)); [now injection H as <-|].
    destruct (r_index cl _) as [i|]; simpl in H; [|discriminate].
    destruct (costheta_index cl _ _) as [j|]; simpl in H; [|discriminate].
    destruct (kind_branch cl source _ _ _ i j t_indep_table) as [lc|];
      simpl in H; [|discriminate].
    match type of H with
    | mbind _ ?m = _ => destruct m as [a1|]; simpl in H; [|discriminate]
    end.
    unfold foldi_r in H.
    rewrite (hit_loop_unreached cl source i j lc table table_norm hits
               Hall 0%nat e) in H.
    simpl in H. now injection H as <-.
Qed.

(** X13: when every source is beyond the radius of the table or has no
    hit that gets past the two time tests (the hit is earlier than the
    source, its time is NaN, or it is [t_max] or more after the source),
    the log-likelihood sum an evaluation returns is that of the noise
    alone: the sum over the hits with every expectation at zero. *)
Theorem unreached_hits_leave_noise `{L : Libs} (cl : Closure)
    (sources : list Source) (hits : list (float * float))
    (dom_info : DomInfo) (time_window : float)
    (table : Table) (table_norm t_indep_table t_indep_table_norm : ndarray float)
    (exp_p_at_all_times sum_log_at_hit_times : float) :
  Forall (fun source =>
            beyond_cut cl dom_info source = true
            \/ Forall (fun hit => reaches_lookup cl source hit = false) hits)
    sources ->
  operational dom_info = true ->
  pexp_5d cl sources hits dom_info time_window table table_norm
    t_indep_table t_indep_table_norm
  = Ok (exp_p_at_all_times, sum_log_at_hit_times) ->
  sum_log dom_info hits (repeat 0 (length hits)) 0 = Ok sum_log_at_hit_times.
Proof.
  intros Hall Hop. unfold pexp_5d. rewrite Hop. simpl.
  assert (forall acc acc',
    source_loop cl hits dom_info table table_norm t_indep_table
      t_indep_table_norm sources acc = Ok acc' -> snd acc' = snd acc) as Hloop.
  { induction Hall as [|s sources Hs _ IH]; intros acc acc' H; simpl in H.
    - now injection H as <-.
    - destruct (source_step _ _ _ _ _ _ _ s acc) as [acc1|] eqn:E;
        simpl in H; [|discriminate].
      rewrite (IH _ _ H).
      exact (source_step_unreached cl hits dom_info table table_norm
               t_indep_table t_indep_table_norm s acc acc1 Hs E). }
  destruct (source_loop _ _ _ _ _ _ _ _ _) as [[a0 e0]|] eqn:E; simpl;
    [|discriminate].
  apply Hloop in E. simpl in E. subst e0.
  destruct (sum_log _ _ _ _) as [s|]; simpl; [|discriminate].
  destruct (np_isinf s); [discriminate|].
  now intros [= _ <-].
Qed.

Lemma unreached_hits_leave_noise_witness :
  pexp_5d (L := libs_on_axes) (small_cl false true)
    [axis_source (-3); axis_source 20] [(-1, 1); (nan, 2); (30, 1)]
    small_dom 100
    (Plain (constant [2; 2; 2; 2; 2]%nat 0.25)) (constant [2; 2]%nat 1)
    (constant [2; 2; 2; 2]%nat 0.5) (constant [2]%nat 1)
  = Ok (100.5, 0)
  /\ sum_log (L := libs_on_axes) small_dom [(-1, 1); (nan, 2); (30, 1)]
       [0; 0; 0] 0 = Ok 0.
Proof.
  assert (pexp_5d (L := libs_on_axes) (small_cl false true)
            [axis_source (-3); axis_source 20] [(-1, 1); (nan, 2); (30, 1)]
            small_dom 100
            (Plain (constant [2; 2; 2; 2; 2]%nat 0.25)) (constant [2; 2]%nat 1)
            (constant [2; 2; 2; 2]%nat 0.5) (constant [2]%nat 1)
          = Ok (100.5, 0)) as Hrun by (vm_compute; reflexivity).
  split; [exact Hrun|].
  refine (unreached_hits_leave_noise (L := libs_on_axes) (small_cl false true)
            _ _ small_dom 100 _ _ _ _ _ _ _ eq_refl Hrun).
  constructor; [right; repeat (constructor; [vm_compute; reflexivity|]);
                constructor|].
  constructor; [left; vm_compute; reflexivity | constructor].
Defined.

(** *** The time-independent table of a Cherenkov table *)

Lemma norm_index_empty_axis (shp : list nat) :
  In 0%nat shp -> forall idx, norm_index shp idx = None.
Proof.
  induction shp as [|n shp IH]; intros Hin idx; [easy|].
  destruct idx as [|i idx]; [reflexivity|]. simpl.
  destruct Hin as [-> | Hin].
  - destruct (Z.leb_spec (- Z.of_nat 0) i), (Z.ltb_spec i (Z.of_nat 0));
      simpl; try reflexivity; lia.
  - rewrite (IH Hin idx). now destruct (_ && _).
Qed.

(** X14: with a Cherenkov table, a Cherenkov source within the radius of
    the table has its survival probability read from [t_indep_table]
    whether or not [compute_t_indep_exp] is enabled: on a table with an
    axis of size zero, as the default [empty_4d_array] is, the turn of
    the source loop raises, and so does the evaluation of a working
    sensor with such a source among its sources. *)
Theorem cherenkov_table_reads_t_indep_table `{L : Libs} (cl : Closure)
    (hits : list (float * float)) (dom_info : DomInfo)
    (table : Table) (table_norm t_indep_table t_indep_table_norm : ndarray float)
    (source : Source) :
  SRC_OMNI <> SRC_CKV_BETA1 ->
  tbl_is_raw cl = false ->
  s_kind source = SRC_CKV_BETA1 ->
  beyond_cut cl dom_info source = false ->
  In 0%nat (shape t_indep_table) ->
  (forall acc,
     raises (source_step cl hits dom_info table table_norm t_indep_table
               t_indep_table_norm source acc))
  /\ (forall sources time_window,
        In source sources -> operational dom_info = true ->
        raises (pexp_5d cl sources hits dom_info time_window table
                  table_norm t_indep_table t_indep_table_norm)).
Proof.
  intros Hne Hraw Hkind Hcut Hshape.
  assert ((s_kind source =? SRC_OMNI)%Z = false) as Hk.
  { rewrite Hkind. destruct (Z.eqb_spec SRC_CKV_BETA1 SRC_OMNI); congruence. }
  assert (forall acc,
    raises (source_step cl hits dom_info table table_norm t_indep_table
              t_indep_table_norm source acc)) as Hraises.
  { intros [a e]. unfold source_step. unfold beyond_cut in Hcut.
    cbv zeta in *. rewrite Hcut.
    destruct (r_index cl _) as [i|x]; simpl; [|now exists x].
    destruct (costheta_index cl _ _) as [j|x]; simpl; [|now exists x].
    assert (raises (kind_branch cl source
                      (d_x dom_info - s_x source) (d_y dom_info - s_y source)
                      ((d_x dom_info - s_x source) * (d_x dom_info - s_x source)
                       + (d_y dom_info - s_y source) * (d_y dom_info - s_y source))
                      i j t_indep_table)) as [x ->].
    { unfold kind_branch. cbv zeta. rewrite Hk, Hkind, Z.eqb_refl, Hraw. simpl.
      destruct (PrimFloat.sqrt _ <=? MACHINE_EPS); simpl;
        (destruct (costhetadir_index cl _) as [c|x]; simpl; [|now exists x]);
        (destruct (deltaphidir_index cl _) as [d|x]; simpl; [|now exists x]);
        unfold index; rewrite (norm_index_empty_axis _ Hshape);
        now exists IndexError. }
    now exists x. }
  split; [exact Hraises|].
  intros sources time_window Hin Hop.
  now apply (pexp_5d_raises_in cl hits dom_info table table_norm
               t_indep_table t_indep_table_norm source sources).
Qed.

Lemma cherenkov_table_reads_t_indep_table_witness :
  raises (pexp_5d (L := libs_on_axes) (small_cl false false)
            [axis_source (-3)] [(5, 1)] small_dom 100
            (Plain (constant [2; 2; 2; 2; 2]%nat 0.25)) (constant [2; 2]%nat 1)
            empty_4d_array empty_1d_array).
Proof.
  refine (proj2 (cherenkov_table_reads_t_indep_table (L := libs_on_axes)
                   (small_cl false false) [(5, 1)] small_dom _ _
                   empty_4d_array empty_1d_array (axis_source (-3)) _ _ _ _ _)
            [axis_source (-3)] 100 _ _).
  - vm_compute. discriminate.
  - reflexivity.
  - reflexivity.
  - vm_compute. reflexivity.
  - left. reflexivity.
  - left. reflexivity.
  - reflexivity.
Defined.

(** *** The binning a closure is generated for *)

Lemma SFeqb_leb_trans x y z :
  SFeqb x y = true -> SFleb x z = true -> SFleb y z = true.
Proof. unfold SFleb, SFeqb, SFcompare. sf_cases; cmp_cases. Qed.

Lemma eqb_leb_trans x y z : (x =? y) = true -> fle x z -> fle y z.
Proof.
  unfold fle. rewrite !leb_spec, FloatAxioms.eqb_spec. apply SFeqb_leb_trans.
Qed.

Lemma eqb_num x y : (x =? y) = true -> is_num x.
Proof.
  unfold is_num. rewrite is_nan_sf, FloatAxioms.eqb_spec.
  unfold SFeqb, SFcompare. destruct (Prim2SF x), (Prim2SF y); simpl;
    congruence.
Qed.

(** [np.min] and [np.max] answer a number only on arrays without NaN, and
    then a bound of the array. *)
Lemma np_min_fold (l seen : list float) (m : float) :
  is_nan m = true \/ Forall (fle m) (m :: seen) ->
  let r := fold_left (fun m x => if is_nan m then m else
                                 if is_nan x || (x <? m) then x else m) l m in
  is_nan r = true \/ Forall (fle r) (m :: seen ++ l).
Proof.
  revert seen m. induction l as [|x l IH]; intros seen m H; simpl.
  - now rewrite app_nil_r.
  - destruct (is_nan m) eqn:Nm.
    + left. clear IH H. induction l as [|y l IHl]; simpl; [exact Nm|].
      now rewrite Nm.
    + destruct H as [H | H]; [congruence|].
      destruct (is_nan x) eqn:Nx; simpl.
      * left. clear IH H. induction l as [|y l IHl]; simpl; [exact Nx|].
        now rewrite Nx.
      * destruct (x <? m) eqn:Lt.
        -- destruct (IH (m :: seen) x) as [R | R]; [| now left |].
           ++ right. constructor; [now apply leb_refl|].
              eapply Forall_impl; [exact H|]. intros y Hy.
              exact (leb_trans _ _ _ (ltb_leb _ _ Lt) Hy).
           ++ right. simpl in R.
              inversion R as [|? ? Rx R']; subst.
              inversion R' as [|? ? Rm R'']; subst.
              constructor; [exact Rm|].
              apply Forall_app in R'' as [Rs Rl].
              apply Forall_app. split; [exact Rs|].
              constructor; assumption.
        -- destruct (IH (seen ++ [x]) m) as [R | R]; [| now left |].
           ++ right. inversion H as [|? ? Hm Hs]; subst.
              constructor; [exact Hm|].
              apply Forall_app. split; [exact Hs|].
              constructor; [|constructor].
              now apply ltb_false_leb.
           ++ right. rewrite <- app_assoc in R. exact R.
Qed.

Lemma np_min_bound (l : list float) (m : float) :
  np_min l = Ok m -> is_num m -> l <> [] /\ Forall (fle m) l.
Proof.
  unfold np_min. destruct l as [|a l]; [discriminate|].
  intros [= <-] Hn. split; [discriminate|].
  destruct (is_nan a) eqn:Na.
  - exfalso. revert Hn. unfold is_num.
    assert (forall l', fold_left
              (fun m x => if is_nan m then m else
                          if is_nan x || (x <? m) then x else m) l' a = a)
      as ->; [|congruence].
    induction l' as [|y l' IHl]; simpl; [reflexivity|]. now rewrite Na.
  - destruct (np_min_fold l [] a) as [R | R].
    + right. constructor; [now apply leb_refl | constructor].
    + unfold is_num in Hn. congruence.
    + exact R.
Qed.

Lemma np_max_fold (l seen : list float) (m : float) :
  Forall is_num l -> Forall (fun y => fle y m) (m :: seen) ->
  let r := fold_left (fun m x => if is_nan m then m else
                                 if is_nan x || (m <? x) then x else m) l m in
  Forall (fun y => fle y r) (m :: seen ++ l).
Proof.
  revert seen m. induction l as [|x l IH]; intros seen m Hl H; simpl.
  - now rewrite app_nil_r.
  - inversion Hl as [|? ? Nx Hl']; subst. unfold is_num in Nx.
    inversion H as [|? ? Hm Hs]; subst.
    destruct (leb_num _ _ Hm) as [Nm _]. unfold is_num in Nm.
    rewrite Nm, Nx. simpl.
    destruct (m <? x) eqn:Lt.
    + assert (Forall (fun y => fle y x) (x :: m :: seen)) as Hx.
      { constructor; [now apply leb_refl|].
        eapply Forall_impl; [exact H|]. intros y Hy.
        exact (leb_trans _ _ _ Hy (ltb_leb _ _ Lt)). }
      pose proof (IH (m :: seen) x Hl' Hx) as R. simpl in R.
      inversion R as [|? ? Rx R']; subst.
      inversion R' as [|? ? Rm R'']; subst.
      constructor; [exact Rm|].
      apply Forall_app in R'' as [Rs Rl].
      apply Forall_app. split; [exact Rs|]. constructor; assumption.
    + assert (Forall (fun y => fle y m) (m :: seen ++ [x])) as Hx.
      { constructor; [exact Hm|]. apply Forall_app. split; [exact Hs|].
        constructor; [|constructor]. now apply ltb_false_leb. }
      pose proof (IH (seen ++ [x]) m Hl' Hx) as R.
      rewrite <- app_assoc in R. exact R.
Qed.

Lemma np_max_bound (l : list float) (m : float) :
  Forall is_num l -> np_max l = Ok m -> Forall (fun y => fle y m) l.
Proof.
  unfold np_max. destruct l as [|a l]; [discriminate|].
  intros Hl [= <-]. inversion Hl as [|? ? Na Hl']; subst.
  apply (np_max_fold l [] a Hl').
  constructor; [now apply leb_refl | constructor].
Qed.

Lemma assert_holds (b : bool) (u : unit) : py_assert b = Ok u -> b = true.
Proof. unfold py_assert. now destruct b. Qed.

(** X15: a closure is generated only for radial and time edges that hold
    no NaN and none below zero (their minimum must be zero), and its two
    cuts are bounds of the binning: [rsquared_max] is the square of an
    upper bound of the radial edges, [t_max] an upper bound of the time
    edges. *)
Theorem generated_cuts_bound_the_binning `{L : Libs} (table : TableMeta)
    (kind : TableKind) (c u : bool) (nps : option Z) (sig : option float)
    (lib : ndarray float) (cl : Closure) :
  generate_pexp_5d_function table kind c u nps sig lib = Ok cl ->
  Forall (fle 0) (r_bin_edges table)
  /\ Forall (fle 0) (t_bin_edges table)
  /\ (exists r_max,
        np_max (r_bin_edges table) = Ok r_max
        /\ rsquared_max cl = r_max * r_max
        /\ Forall (fun r => fle r r_max) (r_bin_edges table))
  /\ np_max (t_bin_edges table) = Ok (t_max cl)
  /\ Forall (fun t => fle t (t_max cl)) (t_bin_edges table).
Proof.
  intros H. unfold generate_pexp_5d_function in H.
  run_binds H. injection H as <-. simpl.
  match goal with
  | Er : np_min (r_bin_edges table) = Ok ?r_min,
    Ar : py_assert (?r_min =? 0) = Ok _,
    Em : np_max (r_bin_edges table) = Ok ?r_max,
    Et : np_min (t_bin_edges table) = Ok ?t_min,
    At : py_assert (?t_min =? 0) = Ok _,
    Etm : np_max (t_bin_edges table) = Ok ?t_max_ |- _ =>
      rename Er into Hrmin, Ar into Ar0, Em into Hrmax, Et into Htmin,
        At into At0, Etm into Htmax
  end.
  apply assert_holds in Ar0, At0.
  destruct (np_min_bound _ _ Hrmin (eqb_num _ _ Ar0)) as [_ Hr].
  destruct (np_min_bound _ _ Htmin (eqb_num _ _ At0)) as [_ Ht].
  assert (Forall (fle 0) (r_bin_edges table)) as Hr0.
  { eapply Forall_impl; [exact Hr|]. intros x. now apply eqb_leb_trans. }
  assert (Forall (fle 0) (t_bin_edges table)) as Ht0.
  { eapply Forall_impl; [exact Ht|]. intros x. now apply eqb_leb_trans. }
  assert (forall l, Forall (fle 0) l -> Forall is_num l) as Hnum.
  { intros l Hl. eapply Forall_impl; [exact Hl|]. intros x Hx.
    now destruct (leb_num _ _ Hx). }
  split; [exact Hr0|]. split; [exact Ht0|]. split; [|split].
  - eexists. split; [reflexivity|]. split; [reflexivity|].
    exact (np_max_bound _ _ (Hnum _ Hr0) Hrmax).
  - reflexivity.
  - exact (np_max_bound _ _ (Hnum _ Ht0) Htmax).
Qed.

Lemma generated_cuts_bound_the_binning_witness :
  Forall (fle 0) (r_bin_edges small_meta)
  /\ Forall (fun t => fle t 20) (t_bin_edges small_meta).
Proof.
  destruct (generated_cuts_bound_the_binning (L := libs_on_axes) small_meta
              ckv_uncompr true true None None (mkArray [] (fun _ => 0))
              (small_cl false true) (proj2 (small_closure_of_small_cl true)))
    as (Hr & _ & _ & _ & Ht).
  split; [exact Hr | exact Ht].
Defined.

End Pexp5dMore.
